(** * The SSH host cache of sysdb: [src/db/sysdb_ssh.c]

    A shallow embedding of the seven functions of [sysdb_ssh.c] and the
    properties of the host-record upsert, the expiry bump and the two
    lookups.

    The functions are C code over an external store (the sysdb core and
    ldb).  They are embedded as computations over an explicit [world]:
    what the store holds, which transactions are open, how many heap
    allocations will still succeed, and how the store answers.  A
    computation yields its return value, the next world and the log of the
    store calls it made, or it is [Undefined] where the C code would read
    outside an array or overflow a signed addition. *)

From Stdlib Require Import ZArith List Ascii String Bool Lia DecimalString
  DecimalZ.
Import ListNotations.
Open Scope string_scope.
Open Scope Z_scope.
Open Scope list_scope.

(** ** Error codes *)

Definition errno_t := Z.
Definition time_t := Z.

Definition EOK : errno_t := 0.
Definition ENOENT : errno_t := 2.
Definition EIO : errno_t := 5.
Definition ENOMEM : errno_t := 12.
Definition EINVAL : errno_t := 22.

(** [time_t] is a signed 64-bit [long]; a signed sum outside this range is
    undefined in C. *)
Definition TIME_T_MIN : Z := - 2 ^ 63.
Definition TIME_T_MAX : Z := 2 ^ 63 - 1.

Definition time_t_range (t : Z) : bool :=
  (TIME_T_MIN <=? t) && (t <=? TIME_T_MAX).

(** ** Attributes and messages *)

(** An [ldb_val] is a byte string with a length of its own, followed in
    memory by a NUL; it may hold NUL bytes itself.  Time values are stored
    in decimal, as [sysdb_attrs_add_time_t] prints them. *)
Definition ldb_val := string.

Definition NUL : ascii := Ascii.zero.

(** The C string at the start of a byte string, which is what a C string
    function reads at the [data] of a value: the bytes before the first
    NUL. *)
Fixpoint c_str (s : string) : string :=
  match s with
  | EmptyString => EmptyString
  | String c rest =>
      if Ascii.eqb c NUL then EmptyString else String c (c_str rest)
  end.

Definition time_val (t : time_t) : ldb_val :=
  NilZero.string_of_int (Z.to_int t).

Definition val_time (v : ldb_val) : option time_t :=
  option_map Z.of_int (NilZero.int_of_string v).

Record ldb_message_element := mk_el {
  el_name : string;
  el_values : list ldb_val
}.

(** [struct sysdb_attrs]: an array of elements, one per attribute name. *)
Definition sysdb_attrs := list ldb_message_element.

(** A stored entry of the custom subtree: its container, its key, and its
    attributes. *)
Record ldb_message := mk_msg {
  msg_subdir : string;
  msg_name : string;
  msg_elements : list ldb_message_element
}.

(** Modelled from the spec: the attribute names and the container name are
    macros of [db/sysdb.h] and [db/sysdb_ssh.h], which are not part of the
    sources at hand.  Only their being pairwise different is used. *)
Definition SYSDB_OBJECTCLASS : string := "objectClass".
Definition SYSDB_SSH_HOST_OC : string := "sshHost".
Definition SYSDB_NAME : string := "name".
Definition SYSDB_NAME_ALIAS : string := "nameAlias".
Definition SYSDB_LAST_UPDATE : string := "lastUpdate".
Definition SYSDB_SSH_KNOWN_HOSTS_EXPIRE : string := "sshKnownHostsExpire".
Definition SSH_HOSTS_SUBDIR : string := "ssh_hosts".

(** [ldb_msg_find_element]: the first element of that name. *)
Fixpoint find_element (els : list ldb_message_element) (name : string)
  : option ldb_message_element :=
  match els with
  | [] => None
  | el :: rest =>
      if String.eqb (el_name el) name then Some el
      else find_element rest name
  end.

Definition ldb_msg_find_element (msg : ldb_message) (name : string)
  : option ldb_message_element :=
  find_element (msg_elements msg) name.

(** The values an attribute has, none when the attribute is missing. *)
Definition attr_values (els : list ldb_message_element) (name : string)
  : list ldb_val :=
  match find_element els name with
  | Some el => el_values el
  | None => []
  end.

(** Modelled from the spec: [sysdb_attrs_add_val] of [db/sysdb.c] appends
    one value to the element of that name and creates the element when
    the bag has none ("inject into attributes", "append it once"). *)
Fixpoint attrs_put (attrs : sysdb_attrs) (name : string) (v : ldb_val)
  : sysdb_attrs :=
  match attrs with
  | [] => [mk_el name [v]]
  | el :: rest =>
      if String.eqb (el_name el) name
      then mk_el (el_name el) (el_values el ++ [v]) :: rest
      else el :: attrs_put rest name v
  end.

(** Several additions in a row, oldest first. *)
Fixpoint attrs_put_all (attrs : sysdb_attrs) (adds : list (string * ldb_val))
  : sysdb_attrs :=
  match adds with
  | [] => attrs
  | (n, v) :: rest => attrs_put_all (attrs_put attrs n v) rest
  end.

(** ** Search filters *)

(** The two filter strings the code prints, [(attr=value)] and
    [(attr>=time)], kept as their parts; [filter_string] is the text. *)
Inductive ldb_filter :=
| filter_eq (attr : string) (value : string)
| filter_ge (attr : string) (t : time_t).

Definition filter_string (f : ldb_filter) : string :=
  match f with
  | filter_eq a v => ("(" ++ a ++ "=" ++ v ++ ")")%string
  | filter_ge a t => ("(" ++ a ++ ">=" ++ time_val t ++ ")")%string
  end.

Definition val_ge (t : time_t) (v : ldb_val) : bool :=
  match val_time v with
  | Some t' => t <=? t'
  | None => false
  end.

(** Modelled from the spec: the filters of the store's search, the exact
    match on one attribute and the greater-or-equal comparison on one
    timestamp attribute. *)
Definition filter_matches (f : ldb_filter) (msg : ldb_message) : bool :=
  match f with
  | filter_eq a v => existsb (String.eqb v) (attr_values (msg_elements msg) a)
  | filter_ge a t => existsb (val_ge t) (attr_values (msg_elements msg) a)
  end.

(** The requested attributes of an entry; [None] is the C [NULL], which
    asks for all of them. *)
Definition project (attrs : option (list string)) (msg : ldb_message)
  : ldb_message :=
  match attrs with
  | None => msg
  | Some names =>
      mk_msg (msg_subdir msg) (msg_name msg)
        (filter (fun el => existsb (String.eqb (el_name el)) names)
                (msg_elements msg))
  end.

(** ** The world *)

Inductive prim :=
| P_transaction_start
| P_transaction_commit
| P_transaction_cancel
| P_search_custom
| P_store_custom
| P_delete_custom.

(** The store calls a computation makes, with what each returned. *)
Inductive event :=
| ev_transaction_start (ret : errno_t)
| ev_transaction_commit (ret : errno_t)
| ev_transaction_cancel (ret : errno_t)
| ev_search_custom (filter : ldb_filter) (subdir : string)
    (attrs : option (list string)) (ret : errno_t) (num_results : nat)
| ev_store_custom (name : string) (subdir : string) (attrs : sysdb_attrs)
    (ret : errno_t)
| ev_delete_custom (name : string) (subdir : string) (ret : errno_t).

Record world := mk_world {
  (** how many more allocating calls succeed before one returns [NULL];
      each [talloc_*] and [sysdb_attrs_*] call counts as one *)
  heap : nat;
  (** the entries of the custom subtree *)
  db : list ldb_message;
  (** the open transactions, innermost first: the entries at their start *)
  txn : list (list ldb_message);
  (** what a store call is scripted to return; [EOK] lets it run *)
  fault : prim -> errno_t;
  (** whether a search that matches nothing reports [ENOENT], as the
      sysdb core does, or succeeds with no results *)
  empty_is_enoent : bool
}.

Definition set_heap (h : nat) (w : world) : world :=
  mk_world h (db w) (txn w) (fault w) (empty_is_enoent w).

Definition set_db (d : list ldb_message) (w : world) : world :=
  mk_world (heap w) d (txn w) (fault w) (empty_is_enoent w).

Definition set_txn (t : list (list ldb_message)) (w : world) : world :=
  mk_world (heap w) (db w) t (fault w) (empty_is_enoent w).

(** ** Computations *)

Inductive outcome (A : Type) :=
| Done (a : A) (w : world) (log : list event)
| Undefined.
Arguments Done {A} a w log.
Arguments Undefined {A}.

Definition M (A : Type) := world -> outcome A.

Definition pure {A} (a : A) : M A := fun w => Done a w [].

Definition bind {A B} (m : M A) (k : A -> M B) : M B :=
  fun w =>
    match m w with
    | Done a w1 l1 =>
        match k a w1 with
        | Done b w2 l2 => Done b w2 (l1 ++ l2)
        | Undefined => Undefined
        end
    | Undefined => Undefined
    end.

Definition undefined {A} : M A := fun _ => Undefined.

Notation "x <- m ;; k" := (bind m (fun x => k))
  (at level 61, m at next level, right associativity).
Notation "' pat <- m ;; k" := (bind m (fun x => match x with pat => k end))
  (at level 61, pat pattern, m at next level, right associativity).

(** ** The primitives the code calls *)

Module Prim.

(** One allocation: [true] for a pointer, [false] for [NULL]. *)
Definition alloc : M bool :=
  fun w =>
    match heap w with
    | O => Done false w []
    | S h => Done true (set_heap h w) []
    end.

(** [talloc_new(NULL)]: a context, or [NULL]. *)
Definition talloc_new : M bool := alloc.

(** [talloc_asprintf] of a filter: the filter, or [NULL]. *)
Definition talloc_asprintf (f : ldb_filter) : M (option ldb_filter) :=
  ok <- alloc ;;
  pure (if ok then Some f else None).

(** Modelled from the spec: [sysdb_new_attrs] of [db/sysdb.c], an empty
    bag, or [NULL] without memory. *)
Definition sysdb_new_attrs : M (option sysdb_attrs) :=
  ok <- alloc ;;
  pure (if ok then Some [] else None).

(** Modelled from the spec: the three [sysdb_attrs_add_*] of [db/sysdb.c].
    Each needs memory and returns [ENOMEM] with the bag as it was when
    there is none. *)
Definition sysdb_attrs_add_val (attrs : sysdb_attrs) (name : string)
    (v : ldb_val) : M (errno_t * sysdb_attrs) :=
  ok <- alloc ;;
  pure (if ok then (EOK, attrs_put attrs name v) else (ENOMEM, attrs)).

Definition sysdb_attrs_add_string (attrs : sysdb_attrs) (name : string)
    (s : string) : M (errno_t * sysdb_attrs) :=
  sysdb_attrs_add_val attrs name s.

Definition sysdb_attrs_add_time_t (attrs : sysdb_attrs) (name : string)
    (t : time_t) : M (errno_t * sysdb_attrs) :=
  sysdb_attrs_add_val attrs name (time_val t).

(** Modelled from the spec: [transactionBegin], [transactionCommit] and
    [transactionCancel] of the object store.  A transaction is all or
    nothing: cancelling brings back the entries of its start.  A call that
    fails changes nothing. *)
Definition sysdb_transaction_start : M errno_t :=
  fun w =>
    let e := fault w P_transaction_start in
    if e =? EOK
    then Done EOK (set_txn (db w :: txn w) w) [ev_transaction_start EOK]
    else Done e w [ev_transaction_start e].

Definition sysdb_transaction_commit : M errno_t :=
  fun w =>
    let e := fault w P_transaction_commit in
    if e =? EOK
    then match txn w with
         | [] => Done EIO w [ev_transaction_commit EIO]
         | _ :: outer => Done EOK (set_txn outer w) [ev_transaction_commit EOK]
         end
    else Done e w [ev_transaction_commit e].

Definition sysdb_transaction_cancel : M errno_t :=
  fun w =>
    let e := fault w P_transaction_cancel in
    if e =? EOK
    then match txn w with
         | [] => Done EIO w [ev_transaction_cancel EIO]
         | saved :: outer =>
             Done EOK (set_txn outer (set_db saved w))
                  [ev_transaction_cancel EOK]
         end
    else Done e w [ev_transaction_cancel e].

Definition in_subdir (subdir : string) (msg : ldb_message) : bool :=
  String.eqb (msg_subdir msg) subdir.

Definition search_results (d : list ldb_message) (f : ldb_filter)
    (subdir : string) (attrs : option (list string)) : list ldb_message :=
  map (project attrs)
      (filter (fun m => in_subdir subdir m && filter_matches f m) d).

(** Modelled from the spec: [search] of the object store, returning the
    matching entries with the requested attributes.  The code at hand
    tells [ENOENT] apart from the other results, and the sysdb core
    reports a search without matches that way. *)
Definition sysdb_search_custom (f : ldb_filter) (subdir : string)
    (attrs : option (list string)) : M (errno_t * nat * list ldb_message) :=
  fun w =>
    let e := fault w P_search_custom in
    if e =? EOK
    then let res := search_results (db w) f subdir attrs in
         match res with
         | [] =>
             let r := if empty_is_enoent w then ENOENT else EOK in
             Done (r, O, []) w [ev_search_custom f subdir attrs r O]
         | _ :: _ =>
             Done (EOK, List.length res, res) w
                  [ev_search_custom f subdir attrs EOK (List.length res)]
         end
    else Done (e, O, []) w [ev_search_custom f subdir attrs e O].

Definition is_entry (subdir name : string) (msg : ldb_message) : bool :=
  String.eqb (msg_subdir msg) subdir && String.eqb (msg_name msg) name.

Definition listed (attrs : sysdb_attrs) (el : ldb_message_element) : bool :=
  existsb (fun a => String.eqb (el_name a) (el_name el)) attrs.

(** The attributes of an entry after a merge write: those the write does
    not list stay, those it lists are replaced. *)
Definition merge_elements (old : list ldb_message_element)
    (attrs : sysdb_attrs) : list ldb_message_element :=
  filter (fun el => negb (listed attrs el)) old ++ attrs.

Fixpoint db_merge (d : list ldb_message) (subdir name : string)
    (attrs : sysdb_attrs) : list ldb_message :=
  match d with
  | [] => [mk_msg subdir name attrs]
  | m :: rest =>
      if is_entry subdir name m
      then mk_msg subdir name (merge_elements (msg_elements m) attrs) :: rest
      else m :: db_merge rest subdir name attrs
  end.

(** Modelled from the spec: [storeMerge], "create the record if absent;
    otherwise replace only the attributes present in the attribute set,
    leaving others untouched". *)
Definition sysdb_store_custom (name : string) (subdir : string)
    (attrs : sysdb_attrs) : M errno_t :=
  fun w =>
    let e := fault w P_store_custom in
    if e =? EOK
    then Done EOK (set_db (db_merge (db w) subdir name attrs) w)
              [ev_store_custom name subdir attrs EOK]
    else Done e w [ev_store_custom name subdir attrs e].

(** Modelled from the spec: [deleteByName], success, not found or error. *)
Definition sysdb_delete_custom (name : string) (subdir : string)
  : M errno_t :=
  fun w =>
    let e := fault w P_delete_custom in
    if e =? EOK
    then if existsb (is_entry subdir name) (db w)
         then Done EOK
                (set_db (filter (fun m => negb (is_entry subdir name m))
                                (db w)) w)
                [ev_delete_custom name subdir EOK]
         else Done ENOENT w [ev_delete_custom name subdir ENOENT]
    else Done e w [ev_delete_custom name subdir e].

End Prim.
Import Prim.

(** ** The functions of [sysdb_ssh.c] *)

Definition failed (ret : errno_t) : bool := negb (ret =? EOK).

(** Reading [p[i]] where [p] may be [NULL] and has its own length. *)
Definition array_get {A} (p : option (list A)) (i : nat) : M A :=
  match p with
  | Some l =>
      match nth_error l i with
      | Some a => pure a
      | None => undefined
      end
  | None => undefined
  end.

(** The sum of two [time_t] values. *)
Definition time_add (a b : Z) : M time_t :=
  if time_t_range (a + b) then pure (a + b) else undefined.

Definition sysdb_update_ssh_host (name : string) (attrs : sysdb_attrs)
  : M errno_t :=
  tmp_ctx <- talloc_new ;;
  if negb tmp_ctx then pure ENOMEM else
  ret <- sysdb_store_custom name SSH_HOSTS_SUBDIR attrs ;;
  if failed ret then pure ret else
  pure EOK.

(** What a function wrote through its result pointers: the array, [None]
    for [NULL], and its length.  The outer [option] of a result is [None]
    when the function returned without writing. *)
Definition hosts_out := (option (list ldb_message) * nat)%type.

Definition sysdb_search_ssh_hosts (filter : ldb_filter)
    (attrs : option (list string)) : M (errno_t * option hosts_out) :=
  tmp_ctx <- talloc_new ;;
  if negb tmp_ctx then pure (ENOMEM, None) else
  '(ret, num_results, results) <-
     sysdb_search_custom filter SSH_HOSTS_SUBDIR attrs ;;
  if failed ret && negb (ret =? ENOENT) then pure (ret, None) else
  if ret =? ENOENT then pure (ret, Some (None, O)) else
  pure (EOK, Some (Some results, num_results)).

(** The result is the return code and what was written to [*host]. *)
Definition sysdb_get_ssh_host (name : string) (attrs : option (list string))
  : M (errno_t * option ldb_message) :=
  tmp_ctx <- talloc_new ;;
  if negb tmp_ctx then pure (ENOMEM, None) else
  filter <- talloc_asprintf (filter_eq SYSDB_NAME name) ;;
  match filter with
  | None => pure (ENOMEM, None)
  | Some filter =>
      '(ret, out) <- sysdb_search_ssh_hosts filter attrs ;;
      if failed ret then pure (ret, None) else
      match out with
      | None => undefined
      | Some (hosts, num_hosts) =>
          if (1 <? num_hosts)%nat then pure (EINVAL, None) else
          host <- array_get hosts 0 ;;
          pure (EOK, Some host)
      end
  end.

Definition sysdb_get_ssh_known_hosts (now : time_t)
    (attrs : option (list string)) : M (errno_t * option hosts_out) :=
  tmp_ctx <- talloc_new ;;
  if negb tmp_ctx then pure (ENOMEM, None) else
  filter <- talloc_asprintf (filter_ge SYSDB_SSH_KNOWN_HOSTS_EXPIRE now) ;;
  match filter with
  | None => pure (ENOMEM, None)
  | Some filter => sysdb_search_ssh_hosts filter attrs
  end.

Definition sysdb_delete_ssh_host (name : string) : M errno_t :=
  sysdb_delete_custom name SSH_HOSTS_SUBDIR.

(** [strcmp(a, b) == 0]: the comparison ends at the first NUL of each
    side. *)
Definition strcmp_eq (a b : string) : bool :=
  String.eqb (c_str a) (c_str b).

(** The loop of [sysdb_store_ssh_host] over the values of the alias
    element of the existing entry.  The result code is that of an addition
    that failed, after which the function leaves through [done], and [EOK]
    when the loop has run to its end. *)
Fixpoint copy_aliases (values : list ldb_val) (alias : string)
    (new_alias : bool) (attrs : sysdb_attrs)
  : M (errno_t * bool * sysdb_attrs) :=
  match values with
  | [] => pure (EOK, new_alias, attrs)
  | v :: rest =>
      let new_alias := if strcmp_eq v alias then false else new_alias in
      '(ret, attrs) <- sysdb_attrs_add_val attrs SYSDB_NAME_ALIAS v ;;
      if failed ret then pure (ret, new_alias, attrs) else
      copy_aliases rest alias new_alias attrs
  end.

(** The block [if (alias) { ... }] of [sysdb_store_ssh_host].  The result
    is the return code, with which the function leaves through [done] when
    it is not [EOK], the value of [in_transaction], and the bag. *)
Definition store_alias (name alias : string) (attrs : sysdb_attrs)
  : M (errno_t * bool * sysdb_attrs) :=
  ret <- sysdb_transaction_start ;;
  if failed ret then pure (ret, false, attrs) else
  '(ret, host) <- sysdb_get_ssh_host name (Some [SYSDB_NAME_ALIAS]) ;;
  if failed ret && negb (ret =? ENOENT) then pure (ret, true, attrs) else
  '(ret, new_alias, attrs) <-
     match host with
     | Some host =>
         match ldb_msg_find_element host SYSDB_NAME_ALIAS with
         | Some el => copy_aliases (el_values el) alias true attrs
         | None => pure (EOK, true, attrs)
         end
     | None => pure (EOK, true, attrs)
     end ;;
  if failed ret then pure (ret, true, attrs) else
  if new_alias
  then '(ret, attrs) <- sysdb_attrs_add_string attrs SYSDB_NAME_ALIAS alias ;;
       pure (ret, true, attrs)
  else pure (EOK, true, attrs).

(** The label [done] of [sysdb_store_ssh_host]. *)
Definition store_done (in_transaction : bool) (ret : errno_t)
    (attrs : sysdb_attrs) : M (errno_t * sysdb_attrs) :=
  if in_transaction
  then sret <- sysdb_transaction_cancel ;; pure (ret, attrs)
  else pure (ret, attrs).

(** [alias] is [None] for a [NULL] alias.  The bag is the caller's object
    and is changed in place: the result carries it as the function leaves
    it. *)
Definition sysdb_store_ssh_host (name : string) (alias : option string)
    (now : time_t) (attrs : sysdb_attrs) : M (errno_t * sysdb_attrs) :=
  tmp_ctx <- talloc_new ;;
  if negb tmp_ctx then pure (ENOMEM, attrs) else
  '(ret, attrs) <-
     sysdb_attrs_add_string attrs SYSDB_OBJECTCLASS SYSDB_SSH_HOST_OC ;;
  if failed ret then store_done false ret attrs else
  '(ret, attrs) <- sysdb_attrs_add_string attrs SYSDB_NAME name ;;
  if failed ret then store_done false ret attrs else
  '(ret, in_transaction, attrs) <-
     match alias with
     | Some alias => store_alias name alias attrs
     | None => pure (EOK, false, attrs)
     end ;;
  if failed ret then store_done in_transaction ret attrs else
  '(ret, attrs) <- sysdb_attrs_add_time_t attrs SYSDB_LAST_UPDATE now ;;
  if failed ret then store_done in_transaction ret attrs else
  ret <- sysdb_update_ssh_host name attrs ;;
  if failed ret then store_done in_transaction ret attrs else
  if in_transaction
  then ret <- sysdb_transaction_commit ;;
       if failed ret then store_done true ret attrs else
       store_done false EOK attrs
  else store_done false EOK attrs.

Definition sysdb_update_ssh_known_host_expire (name : string) (now : time_t)
    (known_hosts_timeout : Z) : M errno_t :=
  tmp_ctx <- talloc_new ;;
  if negb tmp_ctx then pure ENOMEM else
  attrs <- sysdb_new_attrs ;;
  match attrs with
  | None => pure ENOMEM
  | Some attrs =>
      expire <- time_add now known_hosts_timeout ;;
      '(ret, attrs) <-
         sysdb_attrs_add_time_t attrs SYSDB_SSH_KNOWN_HOSTS_EXPIRE expire ;;
      if failed ret then pure ret else
      ret <- sysdb_update_ssh_host name attrs ;;
      if failed ret then pure ret else
      pure EOK
  end.

(** ** Worlds to run the code in *)

Definition no_fault : prim -> errno_t := fun _ => EOK.

Definition fault_at (p : prim) (e : errno_t) : prim -> errno_t :=
  fun q =>
    match p, q with
    | P_transaction_start, P_transaction_start
    | P_transaction_commit, P_transaction_commit
    | P_transaction_cancel, P_transaction_cancel
    | P_search_custom, P_search_custom
    | P_store_custom, P_store_custom
    | P_delete_custom, P_delete_custom => e
    | _, _ => EOK
    end.

Definition sysdb_init (d : list ldb_message) : world :=
  mk_world 1000 d [] no_fault true.

(** The world a computation leaves, and what it returns. *)
Definition world_after {A} (m : M A) (w : world) : world :=
  match m w with
  | Done _ w' _ => w'
  | Undefined => w
  end.

Definition returned {A} (m : M A) (w : world) : option A :=
  match m w with
  | Done a _ _ => Some a
  | Undefined => None
  end.

(** The scenario of two upserts of [host1] and an expiry bump, from an
    empty store. *)
Definition scenario : world :=
  let w0 := sysdb_init [] in
  let w1 := world_after
              (sysdb_store_ssh_host "host1" (Some "h1.example.com") 1000
                 [mk_el "region" ["us"]]) w0 in
  let w2 := world_after
              (sysdb_store_ssh_host "host1" (Some "h1-alt.example.com") 1010
                 [mk_el "region" ["us"]]) w1 in
  world_after (sysdb_update_ssh_known_host_expire "host1" 1010 300) w2.

(** A store in which one call is scripted to fail. *)
Definition sysdb_faulty (p : prim) (e : errno_t) (d : list ldb_message)
  : world :=
  mk_world 1000 d [] (fault_at p e) true.

Definition host1 : ldb_message :=
  mk_msg SSH_HOSTS_SUBDIR "host1"
    [mk_el SYSDB_OBJECTCLASS [SYSDB_SSH_HOST_OC];
     mk_el SYSDB_NAME ["host1"];
     mk_el SYSDB_NAME_ALIAS ["h1.example.com"];
     mk_el SYSDB_LAST_UPDATE ["1000"];
     mk_el "region" ["us"]].

(** ** What the statements speak of *)

(** The entry stored under a key. *)
Definition find_entry (d : list ldb_message) (subdir name : string)
  : option ldb_message :=
  find (is_entry subdir name) d.

(** The values an attribute has in the entry under a key. *)
Definition entry_values (d : list ldb_message) (subdir name attr : string)
  : list ldb_val :=
  match find_entry d subdir name with
  | Some m => attr_values (msg_elements m) attr
  | None => []
  end.

(** The entries of the host container whose name attribute is [name]: what
    the lookup by name finds. *)
Definition lookup_host (w : world) (name : string) : list ldb_message :=
  filter (fun m => in_subdir SSH_HOSTS_SUBDIR m
                   && filter_matches (filter_eq SYSDB_NAME name) m) (db w).

(** The aliases stored for a host before the call, none without an
    entry. *)
Definition existing_aliases (w : world) (name : string) : list ldb_val :=
  match lookup_host w name with
  | m :: _ => attr_values (msg_elements m) SYSDB_NAME_ALIAS
  | [] => []
  end.

Definition has_alias (alias : string) (values : list ldb_val) : bool :=
  existsb (fun v => strcmp_eq v alias) values.

(** A byte string without a NUL: the text of a C string, and what
    [sysdb_attrs_add_string] stores. *)
Definition is_c_string (s : string) : Prop :=
  ~ In NUL (list_ascii_of_string s).

(** [p] is what a C function reads at [s]: [p] has no NUL, and [s] is [p]
    or [p] followed by a NUL and further bytes. *)
Definition c_text (s p : string) : Prop :=
  is_c_string p /\
  (s = p \/ exists rest, s = (p ++ String NUL rest)%string).

(** Two byte strings that read as the same C string. *)
Definition same_c_string (a b : string) : Prop :=
  exists p, c_text a p /\ c_text b p.

(** One of the values reads as the alias: the alias is among them as far
    as [strcmp] can tell. *)
Definition alias_present (alias : string) (values : list ldb_val) : Prop :=
  exists v, In v values /\ same_c_string v alias.

(** Everything [sysdb_store_ssh_host] adds to the bag on a run that gets
    to the write, in the order of the additions. *)
Definition additions (name : string) (alias : option string)
    (existing : list ldb_val) (now : time_t) : list (string * ldb_val) :=
  [(SYSDB_OBJECTCLASS, SYSDB_SSH_HOST_OC); (SYSDB_NAME, name)]
  ++ match alias with
     | Some a =>
         map (pair SYSDB_NAME_ALIAS) existing
         ++ (if has_alias a existing then [] else [(SYSDB_NAME_ALIAS, a)])
     | None => []
     end
  ++ [(SYSDB_LAST_UPDATE, time_val now)].

(** The values of one attribute among a list of additions. *)
Definition added_values (adds : list (string * ldb_val)) (attr : string)
  : list ldb_val :=
  map snd (filter (fun nv => String.eqb (fst nv) attr) adds).

(** The number of values a bag holds. *)
Definition count_values (attrs : sysdb_attrs) : nat :=
  list_sum (map (fun el => List.length (el_values el)) attrs).

(** An entry counts as live at [now] when one of its expiry values is
    [now] or later. *)
Definition live (now : time_t) (m : ldb_message) : bool :=
  filter_matches (filter_ge SYSDB_SSH_KNOWN_HOSTS_EXPIRE now) m.

(** What [sysdb_get_ssh_host] takes for granted of the store: a search
    that returns [EOK] has found an entry. *)
Definition search_contract (w : world) : Prop :=
  forall f subdir attrs ret n res w' log,
    sysdb_search_custom f subdir attrs w = Done (ret, n, res) w' log ->
    ret = EOK -> (1 <= n)%nat /\ List.length res = n.


(** [p] is the beginning of [l]. *)
Definition is_prefix {A} (p l : list A) : Prop := exists rest, l = p ++ rest.

(** A store call has stopped the run before the aliases were merged: the
    transaction did not start, or the search failed, or it found more
    than one host. *)
Definition stopped_by_store (l : list event) : Prop :=
  (exists e, In (ev_transaction_start e) l /\ e <> EOK) \/
  (exists f s a e n,
     In (ev_search_custom f s a e n) l /\
     (e <> EOK /\ e <> ENOENT \/ (1 < n)%nat)).

(** The additions memory allows for.  Each addition takes one allocation;
    the temporary context takes one before them, and with an alias the
    lookup takes three more once the object class and the name are
    added. *)
Definition additions_in_memory (alias : option string) (h : nat) : nat :=
  match alias with
  | None => h - 1
  | Some _ => if (h <? 3)%nat then h - 1 else Nat.max 2 (h - 4)
  end.

(** ** What the further statements speak of *)

(** The store call an event records, and what the call returned. *)
Definition prim_of (e : event) : prim :=
  match e with
  | ev_transaction_start _ => P_transaction_start
  | ev_transaction_commit _ => P_transaction_commit
  | ev_transaction_cancel _ => P_transaction_cancel
  | ev_search_custom _ _ _ _ _ => P_search_custom
  | ev_store_custom _ _ _ _ => P_store_custom
  | ev_delete_custom _ _ _ => P_delete_custom
  end.

Definition ret_of (e : event) : errno_t :=
  match e with
  | ev_transaction_start r => r
  | ev_transaction_commit r => r
  | ev_transaction_cancel r => r
  | ev_search_custom _ _ _ r _ => r
  | ev_store_custom _ _ _ r => r
  | ev_delete_custom _ _ r => r
  end.

(** The sequences of store calls an upsert can make. *)
Definition upsert_calls : list (list prim) :=
  [ [];
    [P_store_custom];
    [P_transaction_start];
    [P_transaction_start; P_transaction_cancel];
    [P_transaction_start; P_search_custom; P_transaction_cancel];
    [P_transaction_start; P_search_custom; P_store_custom;
     P_transaction_cancel];
    [P_transaction_start; P_search_custom; P_store_custom;
     P_transaction_commit; P_transaction_cancel];
    [P_transaction_start; P_search_custom; P_store_custom;
     P_transaction_commit] ].

(** The key of an entry. *)
Definition entry_key (m : ldb_message) : string * string :=
  (msg_subdir m, msg_name m).

(** Every host entry has its key, and nothing else, as its name
    attribute: what an upsert writes. *)
Definition hosts_named (d : list ldb_message) : Prop :=
  forall m, In m d -> msg_subdir m = SSH_HOSTS_SUBDIR ->
            attr_values (msg_elements m) SYSDB_NAME = [msg_name m].

(** No two entries under one key. *)
Definition keys_unique (d : list ldb_message) : Prop :=
  NoDup (map entry_key d).

Definition consistent (d : list ldb_message) : Prop :=
  hosts_named d /\ keys_unique d.

(** * Properties *)

(** ** Attribute bags *)

Lemma find_element_attrs_put_same attrs name v :
  attr_values (attrs_put attrs name v) name = attr_values attrs name ++ [v].
Proof.
  unfold attr_values.
  induction attrs as [|el rest IH]; simpl.
  - now rewrite String.eqb_refl.
  - destruct (String.eqb (el_name el) name) eqn:E; simpl; rewrite E; auto.
Qed.

Lemma find_element_attrs_put_other attrs name v other :
  name <> other ->
  find_element (attrs_put attrs name v) other = find_element attrs other.
Proof.
  intros Hne.
  induction attrs as [|el rest IH]; simpl.
  - apply String.eqb_neq in Hne. now rewrite Hne.
  - destruct (String.eqb (el_name el) name) eqn:E; simpl.
    + apply String.eqb_eq in E. rewrite E.
      apply String.eqb_neq in Hne. now rewrite Hne.
    + destruct (String.eqb (el_name el) other); auto.
Qed.

Lemma attr_values_attrs_put_other attrs name v other :
  name <> other ->
  attr_values (attrs_put attrs name v) other = attr_values attrs other.
Proof.
  intros Hne. unfold attr_values.
  now rewrite find_element_attrs_put_other.
Qed.

Lemma attr_values_attrs_put attrs name v other :
  attr_values (attrs_put attrs name v) other =
  attr_values attrs other ++ (if String.eqb name other then [v] else []).
Proof.
  destruct (String.eqb_spec name other) as [->|Hne].
  - apply find_element_attrs_put_same.
  - rewrite attr_values_attrs_put_other by assumption.
    now rewrite app_nil_r.
Qed.

Lemma attr_values_attrs_put_all adds : forall attrs attr,
  attr_values (attrs_put_all attrs adds) attr =
  attr_values attrs attr ++ added_values adds attr.
Proof.
  unfold added_values.
  induction adds as [|[n v] rest IH]; intros attrs attr; simpl.
  - now rewrite app_nil_r.
  - rewrite IH, attr_values_attrs_put.
    destruct (String.eqb n attr); simpl; rewrite <- app_assoc; auto.
Qed.

Lemma attrs_put_all_app adds1 : forall attrs adds2,
  attrs_put_all attrs (adds1 ++ adds2) =
  attrs_put_all (attrs_put_all attrs adds1) adds2.
Proof.
  induction adds1 as [|[n v] rest IH]; intros; simpl; auto.
Qed.

Lemma count_values_attrs_put attrs name v :
  count_values (attrs_put attrs name v) = S (count_values attrs).
Proof.
  unfold count_values.
  induction attrs as [|el rest IH]; simpl; auto.
  destruct (String.eqb (el_name el) name); simpl.
  - rewrite length_app. simpl. lia.
  - rewrite IH. lia.
Qed.

Lemma count_values_attrs_put_all adds : forall attrs,
  count_values (attrs_put_all attrs adds) =
  (count_values attrs + List.length adds)%nat.
Proof.
  induction adds as [|[n v] rest IH]; intros; simpl.
  - lia.
  - rewrite IH, count_values_attrs_put. lia.
Qed.

(** ** The store *)

Lemma find_element_app l1 l2 name :
  find_element (l1 ++ l2) name =
  match find_element l1 name with
  | Some el => Some el
  | None => find_element l2 name
  end.
Proof.
  induction l1 as [|el rest IH]; simpl; auto.
  destruct (String.eqb (el_name el) name); auto.
Qed.

Lemma listed_find_element attrs el :
  listed attrs el = true <-> find_element attrs (el_name el) <> None.
Proof.
  unfold listed.
  induction attrs as [|a rest IH]; simpl.
  - split; [discriminate | congruence].
  - destruct (String.eqb (el_name a) (el_name el)); simpl.
    + split; [discriminate | reflexivity].
    + exact IH.
Qed.

Lemma find_element_unlisted old attrs name :
  find_element (filter (fun el => negb (listed attrs el)) old) name =
  match find_element attrs name with
  | Some _ => None
  | None => find_element old name
  end.
Proof.
  induction old as [|el rest IH]; simpl.
  - now destruct (find_element attrs name).
  - destruct (listed attrs el) eqn:L; simpl.
    + rewrite IH.
      destruct (String.eqb_spec (el_name el) name) as [<-|Hne]; auto.
      apply listed_find_element in L.
      now destruct (find_element attrs (el_name el)).
    + destruct (String.eqb_spec (el_name el) name) as [<-|Hne]; auto.
      destruct (find_element attrs (el_name el)) eqn:F; auto.
      assert (listed attrs el = true)
        by (apply listed_find_element; congruence).
      congruence.
Qed.

(** A merge write replaces the attributes it lists and keeps the others. *)
Lemma attr_values_merge_elements old attrs name :
  attr_values (merge_elements old attrs) name =
  match find_element attrs name with
  | Some el => el_values el
  | None => attr_values old name
  end.
Proof.
  unfold attr_values, merge_elements.
  rewrite find_element_app, find_element_unlisted.
  destruct (find_element attrs name); auto.
  now destruct (find_element old name).
Qed.

Lemma find_entry_db_merge d subdir name attrs :
  find_entry (db_merge d subdir name attrs) subdir name =
  Some (mk_msg subdir name
          (merge_elements
             (match find_entry d subdir name with
              | Some m => msg_elements m
              | None => []
              end) attrs)).
Proof.
  unfold find_entry.
  assert (Hself : forall els,
             is_entry subdir name (mk_msg subdir name els) = true)
    by (intros; unfold is_entry; simpl; now rewrite !String.eqb_refl).
  induction d as [|m rest IH]; simpl.
  - now rewrite Hself.
  - destruct (is_entry subdir name m) eqn:E; simpl.
    + now rewrite Hself.
    + now rewrite E.
Qed.

Lemma is_entry_other subdir name subdir' name' m :
  subdir' <> subdir \/ name' <> name ->
  is_entry subdir name m = true -> is_entry subdir' name' m = false.
Proof.
  unfold is_entry. intros Hne H.
  apply andb_true_iff in H as [Hs Hn].
  apply String.eqb_eq in Hs, Hn. rewrite Hs, Hn.
  apply andb_false_iff.
  destruct Hne as [Hne|Hne]; [left|right]; apply String.eqb_neq; congruence.
Qed.

(** A merge write leaves the entries under other keys alone. *)
Lemma find_entry_db_merge_other d subdir name attrs subdir' name' :
  subdir' <> subdir \/ name' <> name ->
  find_entry (db_merge d subdir name attrs) subdir' name' =
  find_entry d subdir' name'.
Proof.
  intros Hne. unfold find_entry.
  assert (Hnew : forall els,
             is_entry subdir' name' (mk_msg subdir name els) = false).
  { intros. apply (is_entry_other subdir name); auto.
    unfold is_entry; simpl; now rewrite !String.eqb_refl. }
  induction d as [|m rest IH]; simpl.
  - now rewrite Hnew.
  - destruct (is_entry subdir name m) eqn:E; simpl.
    + rewrite Hnew, (is_entry_other _ _ _ _ _ Hne E). reflexivity.
    + rewrite IH. reflexivity.
Qed.

Lemma entry_values_db_merge d subdir name attrs attr :
  entry_values (db_merge d subdir name attrs) subdir name attr =
  match find_element attrs attr with
  | Some el => el_values el
  | None => entry_values d subdir name attr
  end.
Proof.
  unfold entry_values.
  rewrite find_entry_db_merge. simpl.
  rewrite attr_values_merge_elements.
  destruct (find_element attrs attr); auto.
  now destruct (find_entry d subdir name).
Qed.

(** Asking for the alias attribute alone returns the aliases as stored. *)
Lemma attr_values_project_alias m :
  attr_values (msg_elements (project (Some [SYSDB_NAME_ALIAS]) m))
              SYSDB_NAME_ALIAS =
  attr_values (msg_elements m) SYSDB_NAME_ALIAS.
Proof.
  unfold attr_values. simpl.
  induction (msg_elements m) as [|el rest IH]; simpl; auto.
  rewrite orb_false_r.
  destruct (String.eqb (el_name el) SYSDB_NAME_ALIAS) eqn:E; simpl.
  - now rewrite E.
  - exact IH.
Qed.

Lemma search_results_lookup_host w name attrs :
  search_results (db w) (filter_eq SYSDB_NAME name) SSH_HOSTS_SUBDIR attrs =
  map (project attrs) (lookup_host w name).
Proof. reflexivity. Qed.

(** A time written by [sysdb_attrs_add_time_t] reads back as written. *)
Lemma val_time_time_val t : val_time (time_val t) = Some t.
Proof.
  unfold val_time, time_val.
  rewrite NilZero.isi.
  - simpl. now rewrite Stdlib.Numbers.DecimalZ.of_to.
  - destruct t; simpl; try discriminate.
    intros [= H]. now apply DecimalPos.Unsigned.to_uint_nonnil in H.
  - destruct t; simpl; try discriminate.
    intros [= H]. now apply DecimalPos.Unsigned.to_uint_nonnil in H.
Qed.

(** ** Running the code *)

(** The alias loop makes no store call and touches the heap only.  It adds
    the values in order and stops at the first addition that fails. *)
Lemma copy_aliases_inv values alias :
  forall new_alias attrs w r flag attrs' w' l,
    copy_aliases values alias new_alias attrs w = Done (r, flag, attrs') w' l ->
    l = [] /\
    exists k h',
      w' = set_heap h' w /\ heap w = (k + h')%nat /\
      attrs' = attrs_put_all attrs
                 (map (pair SYSDB_NAME_ALIAS) (firstn k values)) /\
      (r = EOK /\ k = List.length values /\
       flag = new_alias && negb (has_alias alias values)
       \/ r = ENOMEM /\ (k < List.length values)%nat /\ h' = O).
Proof.
  induction values as [|v rest IH];
    intros new_alias attrs [h d t f e] r flag attrs' w' l H.
  - cbn in H. inversion H; subst.
    split; [reflexivity|]. exists O, h. repeat split.
    left. now rewrite andb_true_r.
  - cbn -[attrs_put] in H. destruct h as [|h].
    + cbn in H. inversion H; subst.
      split; [reflexivity|]. exists O, O. repeat split.
      right. repeat split. simpl. lia.
    + cbn -[attrs_put] in H.
      match type of H with
      | context [copy_aliases rest alias ?b ?a ?w] =>
          destruct (copy_aliases rest alias b a w)
            as [[[r1 f1] a1] w1 l1|] eqn:E
      end; [|discriminate].
      inversion H; subst.
      apply IH in E as (-> & k & h' & -> & Hh & -> & Hk).
      cbn [heap set_heap] in Hh. subst h.
      split; [reflexivity|]. exists (S k), h'. repeat split.
      destruct Hk as [(-> & -> & ->)|(-> & Hlt & ->)]; [left|right];
        repeat split; simpl; auto; try lia.
      destruct (strcmp_eq v alias); simpl; auto.
      now rewrite andb_false_r.
Qed.

Lemma copy_aliases_defined values alias :
  forall new_alias attrs w,
    copy_aliases values alias new_alias attrs w <> Undefined.
Proof.
  induction values as [|v rest IH]; intros new_alias attrs [h d t f e].
  - discriminate.
  - cbn -[attrs_put]. destruct h as [|h]; [discriminate|].
    cbn -[attrs_put].
    match goal with
    | |- context [copy_aliases rest alias ?b ?a ?w] =>
        specialize (IH b a w); destruct (copy_aliases rest alias b a w)
    end; [|contradiction].
    destruct a as [[? ?] ?]. discriminate.
Qed.

Ltac unfold_code :=
  unfold sysdb_store_ssh_host, sysdb_update_ssh_known_host_expire,
    sysdb_get_ssh_known_hosts, store_alias, store_done, sysdb_get_ssh_host,
    sysdb_search_ssh_hosts, sysdb_update_ssh_host, array_get, time_add,
    sysdb_attrs_add_string, sysdb_attrs_add_time_t, sysdb_attrs_add_val,
    sysdb_new_attrs, talloc_asprintf, talloc_new, alloc,
    sysdb_transaction_start, sysdb_transaction_commit,
    sysdb_transaction_cancel, sysdb_search_custom, sysdb_store_custom,
    bind, pure, undefined, failed, ldb_msg_find_element in *.

Ltac red_code H :=
  cbn -[attrs_put attrs_put_all time_val search_results db_merge copy_aliases
        find_element SYSDB_OBJECTCLASS SYSDB_SSH_HOST_OC SYSDB_NAME
        SYSDB_NAME_ALIAS SYSDB_LAST_UPDATE SYSDB_SSH_KNOWN_HOSTS_EXPIRE
        SSH_HOSTS_SUBDIR Nat.ltb time_t_range Z.add] in H.

Ltac use_tests H :=
  match goal with
  | E : (?x =? ?y) = _ |- _ => cbn in E; rewrite E in H
  | E : (?x <? ?y)%nat = _ |- _ => rewrite E in H
  end.

Ltac red_in H := red_code H; repeat (use_tests H; red_code H).

Ltac test_of x :=
  lazymatch x with
  | negb ?b => test_of b
  | andb ?a _ => test_of a
  | _ => constr:(x)
  end.

(** One case split of a run: on the alias loop through its lemma, or on the
    innermost test that is stuck. *)
Ltac break_in H :=
  match type of H with
  | context [copy_aliases ?v ?a ?b ?bag ?w] =>
      let E := fresh "Hloop" in
      destruct (copy_aliases v a b bag w) as [[[? ?] ?] ? ?|] eqn:E;
      [ let Hh := fresh "Hheap" in
        apply copy_aliases_inv in E;
        destruct E
          as (-> & ? & ? & -> & Hh & -> & [(-> & ? & ->)|(-> & ? & ->)]);
        cbn in Hh
      | exfalso; exact (copy_aliases_defined _ _ _ _ _ E) ]
  | context [match ?x with _ => _ end] =>
      lazymatch x with
      | context [match _ with _ => _ end] => fail
      | _ => let y := test_of x in
             first [ is_var y; destruct y | destruct y eqn:? ]
      end
  end.

Ltac explore H := unfold_code; red_in H; repeat (break_in H; red_in H).

(** The facts a path has collected, in the form the statements use. *)
Ltac tidy :=
  repeat match goal with
         | E : (_ =? _) = true |- _ => apply Z.eqb_eq in E
         | E : (_ =? _) = false |- _ => apply Z.eqb_neq in E
         | E : (_ <? _)%nat = true |- _ => apply Nat.ltb_lt in E
         | E : (_ <? _)%nat = false |- _ => apply Nat.ltb_ge in E
         end.

Ltac finish H := try discriminate H; inversion H; subst; clear H; tidy.

(** The events of a known log that can be the one asked for. *)
Ltac log_cases H :=
  simpl in H;
  repeat (destruct H as [H|H]; [try discriminate H|]);
  try contradiction H;
  try (injection H as H).

(** ** Beginnings of lists *)

Lemma is_prefix_nil {A} (l : list A) : is_prefix [] l.
Proof. now exists l. Qed.

Lemma is_prefix_refl {A} (l : list A) : is_prefix l l.
Proof. exists []. now rewrite app_nil_r. Qed.

Lemma is_prefix_cons {A} (a : A) p l :
  is_prefix p l -> is_prefix (a :: p) (a :: l).
Proof. intros [rest ->]. now exists rest. Qed.

Lemma is_prefix_app {A} (x p l : list A) :
  is_prefix p l -> is_prefix (x ++ p) (x ++ l).
Proof. intros [rest ->]. exists rest. now rewrite app_assoc. Qed.

Lemma is_prefix_app_r {A} (p l rest : list A) :
  is_prefix p l -> is_prefix p (l ++ rest).
Proof. intros [r ->]. exists (r ++ rest). now rewrite app_assoc. Qed.

Lemma is_prefix_map_firstn {A B} (f : A -> B) k l :
  is_prefix (map f (firstn k l)) (map f l).
Proof.
  exists (map f (skipn k l)). now rewrite <- map_app, firstn_skipn.
Qed.

Lemma is_prefix_length {A} (p l : list A) :
  is_prefix p l -> (List.length p <= List.length l)%nat.
Proof. intros [rest ->]. rewrite length_app. lia. Qed.

Ltac prefix :=
  repeat first
    [ apply is_prefix_nil
    | apply is_prefix_refl
    | apply is_prefix_cons
    | apply is_prefix_app
    | apply is_prefix_app_r; apply is_prefix_map_firstn
    | apply is_prefix_app_r; apply is_prefix_refl ].

(** ** What the lookup by name returns *)

Lemma existing_aliases_none w name attrs :
  search_results (db w) (filter_eq SYSDB_NAME name) SSH_HOSTS_SUBDIR attrs
  = [] ->
  existing_aliases w name = [].
Proof.
  rewrite search_results_lookup_host. unfold existing_aliases.
  now destruct (lookup_host w name).
Qed.

Lemma existing_aliases_some w name h rest :
  search_results (db w) (filter_eq SYSDB_NAME name) SSH_HOSTS_SUBDIR
    (Some [SYSDB_NAME_ALIAS]) = h :: rest ->
  existing_aliases w name = attr_values (msg_elements h) SYSDB_NAME_ALIAS.
Proof.
  rewrite search_results_lookup_host. unfold existing_aliases.
  destruct (lookup_host w name) as [|m ms]; [discriminate|].
  cbn [map]. intros [= <- _]. symmetry. apply attr_values_project_alias.
Qed.

(** ** C strings *)

Lemma c_str_is_c_string s : is_c_string (c_str s).
Proof.
  unfold is_c_string.
  induction s as [|c rest IH]; simpl; [tauto|].
  destruct (Ascii.eqb_spec c NUL) as [->|Hc]; simpl; [tauto|].
  intros [E|Hin]; [now apply Hc | now apply IH].
Qed.

Lemma c_str_fixed s : is_c_string s -> c_str s = s.
Proof.
  unfold is_c_string.
  induction s as [|c rest IH]; simpl; [reflexivity|].
  intros Hs. destruct (Ascii.eqb_spec c NUL) as [->|Hc].
  - exfalso. apply Hs. now left.
  - f_equal. apply IH. intros Hin. apply Hs. now right.
Qed.

Lemma c_str_app_nul p rest :
  is_c_string p -> c_str (p ++ String NUL rest)%string = p.
Proof.
  unfold is_c_string.
  induction p as [|c p IH]; simpl; [reflexivity|].
  intros Hs. destruct (Ascii.eqb_spec c NUL) as [->|Hc].
  - exfalso. apply Hs. now left.
  - f_equal. apply IH. intros Hin. apply Hs. now right.
Qed.

Lemma c_text_c_str s : c_text s (c_str s).
Proof.
  split; [apply c_str_is_c_string|].
  induction s as [|c rest IH]; simpl; [now left|].
  destruct (Ascii.eqb_spec c NUL) as [->|Hc].
  - right. now exists rest.
  - destruct IH as [IH|(r & IH)].
    + left. now f_equal.
    + right. exists r. simpl. now f_equal.
Qed.

Lemma c_text_unique s p : c_text s p -> p = c_str s.
Proof.
  intros (Hp & [->|(rest & ->)]).
  - symmetry. now apply c_str_fixed.
  - symmetry. now apply c_str_app_nul.
Qed.

(** [strcmp] finds two byte strings equal exactly when they read as the
    same C string. *)
Lemma strcmp_eq_spec a b : strcmp_eq a b = true <-> same_c_string a b.
Proof.
  unfold strcmp_eq. rewrite String.eqb_eq. split.
  - intros E. exists (c_str a). split; [apply c_text_c_str|].
    rewrite E. apply c_text_c_str.
  - intros (p & Ha & Hb).
    apply c_text_unique in Ha, Hb. congruence.
Qed.

Lemma same_c_string_refl a : same_c_string a a.
Proof. apply strcmp_eq_spec. unfold strcmp_eq. apply String.eqb_refl. Qed.


Lemma has_alias_spec alias values :
  has_alias alias values = true <-> alias_present alias values.
Proof.
  unfold has_alias, alias_present. rewrite existsb_exists.
  split; intros (v & Hin & E); exists v; split; auto;
    now apply strcmp_eq_spec.
Qed.

Lemma has_alias_false alias values :
  has_alias alias values = false <-> ~ alias_present alias values.
Proof.
  rewrite <- has_alias_spec. now destruct (has_alias alias values).
Qed.


Lemma In_alias_present alias values :
  In alias values -> alias_present alias values.
Proof.
  intros Hin. exists alias. split; auto. apply same_c_string_refl.
Qed.

(** ** Every run of [sysdb_store_ssh_host] *)

(** The additions that turn [base] into [bag]. *)
Ltac adds_of bag base :=
  lazymatch bag with
  | base => constr:(@nil (string * ldb_val))
  | attrs_put ?b ?n ?v => let l := adds_of b base in constr:(l ++ [(n, v)])
  | attrs_put_all ?b ?l2 => let l := adds_of b base in constr:(l ++ l2)
  end.

(** The aliases read on a path, as the statement names them. *)
Ltac name_aliases :=
  try (erewrite existing_aliases_none by (simpl; eassumption));
  try (erewrite existing_aliases_some by (simpl; eassumption));
  unfold additions, attr_values;
  repeat match goal with
         | E : find_element _ SYSDB_NAME_ALIAS = _ |- _ => rewrite E
         | E : has_alias _ _ = _ |- _ => rewrite E
         end;
  rewrite ?firstn_all; cbn [app has_alias existsb map];
  rewrite <- ?app_assoc; cbn [app].

(** What a run leaves behind.  [done] are the additions made to the bag,
    a beginning of all the additions of the call. *)
Lemma sysdb_store_ssh_host_run name alias now attrs w r attrs' w' l :
  sysdb_store_ssh_host name alias now attrs w = Done (r, attrs') w' l ->
  fault w P_search_custom <> ENOENT ->
  exists done,
    attrs' = attrs_put_all attrs done /\
    is_prefix done (additions name alias (existing_aliases w name) now) /\
    (l <> [] -> (2 <= List.length done)%nat) /\
    ((exists e, In (ev_store_custom name SSH_HOSTS_SUBDIR attrs' e) l) ->
     done = additions name alias (existing_aliases w name) now) /\
    (r = EOK ->
     done = additions name alias (existing_aliases w name) now /\
     db w' = db_merge (db w) SSH_HOSTS_SUBDIR name attrs' /\
     txn w' = txn w) /\
    (r <> EOK -> (forall e, ~ In (ev_transaction_commit e) l) ->
     db w' = db w) /\
    (r <> EOK -> In (ev_transaction_start EOK) l ->
     exists l0 sret,
       l = l0 ++ [ev_transaction_cancel sret] /\
       (sret = EOK -> txn w' = txn w)) /\
    (db w' = db w \/
     done = additions name alias (existing_aliases w name) now /\
     db w' = db_merge (db w) SSH_HOSTS_SUBDIR name attrs').
Proof.
  destruct w as [h d t f em]. intros H Hs. simpl in Hs.
  destruct alias as [alias|]; explore H; finish H; try congruence.
  all: match goal with
       | |- exists d, ?bag = attrs_put_all ?base d /\ _ =>
           let a := adds_of bag base in exists a
       end.
  all: split; [rewrite ?attrs_put_all_app; reflexivity|].
  all: name_aliases.
  all: split; [prefix|].
  all: split; [intros Hl; try congruence; rewrite ?length_app; simpl; lia|].
  all: split; [intros [e Hin]; log_cases Hin; try reflexivity|].
  all: split; [intros Hr; try discriminate Hr; try congruence; auto|].
  all: split; [intros Hr Hno; try congruence; try reflexivity;
               exfalso; eapply Hno; simpl; eauto 6|].
  all: split; [|first [left; reflexivity | right; split; reflexivity]].
  all: intros Hr Hin; log_cases Hin; try congruence.
  all: first [ eexists [_], _; split; [reflexivity|]
             | eexists [_; _], _; split; [reflexivity|]
             | eexists [_; _; _], _; split; [reflexivity|]
             | eexists [_; _; _; _], _; split; [reflexivity|] ].
  all: simpl; intros; congruence.
Qed.

(** ** A commit that fails *)

Lemma sysdb_store_ssh_host_failed_commit
    name alias now attrs w r attrs' w' l e :
  sysdb_store_ssh_host name (Some alias) now attrs w = Done (r, attrs') w' l ->
  In (ev_transaction_commit e) l ->
  e <> EOK ->
  r = e /\
  exists l0 sret,
    l = l0 ++ [ev_transaction_commit e; ev_transaction_cancel sret] /\
    In (ev_store_custom name SSH_HOSTS_SUBDIR attrs' EOK) l0 /\
    (sret = EOK -> db w' = db w /\ txn w' = txn w).
Proof.
  destruct w as [h d t f em]. intros H Hin He.
  explore H; finish H; log_cases Hin; try congruence.
  all: subst e.
  all: split; [reflexivity|].
  all: eexists [_; _; _], _; split; [reflexivity|].
  all: split; [simpl; auto|].
  all: simpl; auto; intros; congruence.
Qed.

(** C8: in every run of [sysdb_store_ssh_host] with an alias in which the
    commit fails, the cancel is called right after the failed commit, as
    the last store call, and then the commit's error is returned.  The
    cancel acts on the transaction this call opened: when it succeeds, the
    entries and the open transactions are those of before the call. *)
Theorem sysdb_store_ssh_host_cancels_failed_commit
    name alias now attrs w r attrs' w' l e :
  sysdb_store_ssh_host name (Some alias) now attrs w = Done (r, attrs') w' l ->
  In (ev_transaction_commit e) l ->
  e <> EOK ->
  r = e /\
  exists l0 sret,
    l = l0 ++ [ev_transaction_commit e; ev_transaction_cancel sret] /\
    (sret = EOK -> db w' = db w /\ txn w' = txn w).
Proof.
  intros H Hin He.
  destruct (sysdb_store_ssh_host_failed_commit _ _ _ _ _ _ _ _ _ _ H Hin He)
    as (Hr & l0 & sret & Hl & _ & Hw).
  split; [exact Hr|]. now exists l0, sret.
Qed.

Lemma sysdb_store_ssh_host_cancels_failed_commit_witness :
  let w := sysdb_faulty P_transaction_commit EIO [host1] in
  exists r attrs' w' l,
    sysdb_store_ssh_host "host1" (Some "h1-alt.example.com") 1010 [] w
    = Done (r, attrs') w' l /\
    In (ev_transaction_commit EIO) l /\
    EIO <> EOK /\
    r = EIO /\
    exists l0 sret,
      l = l0 ++ [ev_transaction_commit EIO; ev_transaction_cancel sret] /\
      (sret = EOK -> db w' = db w /\ txn w' = txn w).
Proof.
  intros w. eexists _, _, _, _.
  split; [vm_compute; reflexivity|]. split; [simpl; auto 6|]. split; [discriminate|].
  eapply (sysdb_store_ssh_host_cancels_failed_commit
            "host1" "h1-alt.example.com" 1010 [] w).
  - reflexivity.
  - simpl. auto 6.
  - discriminate.
Defined.

(** C7, as amended: in every run of [sysdb_store_ssh_host] with an alias in
    which the write succeeds and the commit fails, the function returns an
    error, and the error is the code the commit returned. *)
Theorem sysdb_store_ssh_host_returns_commit_error
    name alias now attrs w r attrs' w' l e :
  sysdb_store_ssh_host name (Some alias) now attrs w = Done (r, attrs') w' l ->
  In (ev_store_custom name SSH_HOSTS_SUBDIR attrs' EOK) l ->
  In (ev_transaction_commit e) l ->
  e <> EOK ->
  r <> EOK /\ r = e.
Proof.
  intros H _ Hin He.
  destruct (sysdb_store_ssh_host_failed_commit _ _ _ _ _ _ _ _ _ _ H Hin He)
    as (Hr & _).
  split; congruence.
Qed.

Lemma sysdb_store_ssh_host_returns_commit_error_witness :
  let w := sysdb_faulty P_transaction_commit EIO [host1] in
  exists r attrs' w' l,
    sysdb_store_ssh_host "host1" (Some "h1-alt.example.com") 1010 [] w
    = Done (r, attrs') w' l /\
    In (ev_store_custom "host1" SSH_HOSTS_SUBDIR attrs' EOK) l /\
    In (ev_transaction_commit EIO) l /\
    EIO <> EOK /\
    r <> EOK /\ r = EIO.
Proof.
  intros w. eexists _, _, _, _.
  split; [vm_compute; reflexivity|]. split; [simpl; auto|]. split; [simpl; auto 6|].
  split; [discriminate|].
  eapply (sysdb_store_ssh_host_returns_commit_error
            "host1" "h1-alt.example.com" 1010 [] w).
  - reflexivity.
  - simpl. auto.
  - simpl. auto 6.
  - discriminate.
Defined.

(** C7, as stated, fails: a run in which the write succeeds and the commit
    fails and a run in which the write fails can return the same code, so
    the caller cannot tell the two apart by what is returned. *)
Lemma commit_error_not_told_apart :
  ~ (forall w1 w2 r1 r2 bag1 bag2 w1' w2' l1 l2 e1 e2,
       sysdb_store_ssh_host "host1" (Some "h1-alt.example.com") 1010 [] w1
       = Done (r1, bag1) w1' l1 ->
       In (ev_store_custom "host1" SSH_HOSTS_SUBDIR bag1 EOK) l1 ->
       In (ev_transaction_commit e1) l1 -> e1 <> EOK ->
       sysdb_store_ssh_host "host1" (Some "h1-alt.example.com") 1010 [] w2
       = Done (r2, bag2) w2' l2 ->
       In (ev_store_custom "host1" SSH_HOSTS_SUBDIR bag2 e2) l2 ->
       e2 <> EOK ->
       r1 <> r2).
Proof.
  intros claim.
  refine (claim (sysdb_faulty P_transaction_commit EIO [host1])
                (sysdb_faulty P_store_custom EIO [host1])
                EIO EIO _ _ _ _ _ _ EIO EIO _ _ _ _ _ _ _ eq_refl).
  - reflexivity.
  - simpl. auto.
  - simpl. auto 6.
  - discriminate.
  - reflexivity.
  - simpl. auto.
  - discriminate.
Qed.

(** ** What the additions amount to *)

Lemma added_values_app l1 l2 attr :
  added_values (l1 ++ l2) attr = added_values l1 attr ++ added_values l2 attr.
Proof. unfold added_values. now rewrite filter_app, map_app. Qed.

Lemma added_values_map_pair n values attr :
  added_values (map (pair n) values) attr =
  if String.eqb n attr then values else [].
Proof.
  unfold added_values.
  induction values as [|v rest IH]; simpl.
  - now destruct (String.eqb n attr).
  - destruct (String.eqb n attr); simpl; [f_equal|]; exact IH.
Qed.

Lemma added_values_additions_alias name alias existing now :
  added_values (additions name (Some alias) existing now) SYSDB_NAME_ALIAS =
  existing ++ (if has_alias alias existing then [] else [alias]).
Proof.
  unfold additions.
  rewrite !added_values_app, added_values_map_pair.
  destruct (has_alias alias existing); simpl; now rewrite ?app_nil_r.
Qed.

Lemma added_values_additions_last_update name alias existing now :
  added_values (additions name alias existing now) SYSDB_LAST_UPDATE =
  [time_val now].
Proof.
  unfold additions. destruct alias as [alias|].
  - rewrite !added_values_app, added_values_map_pair.
    now destruct (has_alias alias existing).
  - reflexivity.
Qed.

Lemma added_values_additions_objectclass name alias existing now :
  added_values (additions name alias existing now) SYSDB_OBJECTCLASS =
  [SYSDB_SSH_HOST_OC].
Proof.
  unfold additions. destruct alias as [alias|].
  - rewrite !added_values_app, added_values_map_pair.
    now destruct (has_alias alias existing).
  - reflexivity.
Qed.

Lemma find_element_attrs_put_some attrs name v other :
  find_element attrs other <> None ->
  find_element (attrs_put attrs name v) other <> None.
Proof.
  destruct (String.eqb_spec name other) as [->|Hne].
  - intros _. induction attrs as [|el rest IH]; simpl.
    + now rewrite String.eqb_refl.
    + destruct (String.eqb (el_name el) other) eqn:E; simpl; rewrite E;
        [discriminate | exact IH].
  - now rewrite find_element_attrs_put_other.
Qed.

Lemma find_element_attrs_put_new attrs name v :
  find_element (attrs_put attrs name v) name <> None.
Proof.
  induction attrs as [|el rest IH]; simpl.
  - now rewrite String.eqb_refl.
  - destruct (String.eqb (el_name el) name) eqn:E; simpl; rewrite E;
      [discriminate | exact IH].
Qed.

Lemma find_element_attrs_put_all adds : forall attrs name,
  find_element attrs name <> None \/ In name (map fst adds) ->
  find_element (attrs_put_all attrs adds) name <> None.
Proof.
  induction adds as [|[n v] rest IH]; intros attrs name H; simpl.
  - destruct H as [H|[]]. exact H.
  - apply IH. destruct H as [H|[<-|H]].
    + left. now apply find_element_attrs_put_some.
    + left. apply find_element_attrs_put_new.
    + now right.
Qed.

(** After a merge write, an attribute the write lists has in the entry the
    values it has in the bag. *)
Lemma entry_values_written d subdir name attrs attr :
  find_element attrs attr <> None ->
  entry_values (db_merge d subdir name attrs) subdir name attr =
  attr_values attrs attr.
Proof.
  intros H. rewrite entry_values_db_merge. unfold attr_values.
  now destruct (find_element attrs attr).
Qed.

Lemma additions_names name alias existing now :
  In SYSDB_OBJECTCLASS (map fst (additions name alias existing now)) /\
  In SYSDB_LAST_UPDATE (map fst (additions name alias existing now)) /\
  (alias <> None ->
   In SYSDB_NAME_ALIAS (map fst (additions name alias existing now))).
Proof.
  unfold additions. rewrite !map_app. simpl. repeat split.
  - auto.
  - right. right. apply in_or_app. right. simpl. auto.
  - intros Ha. right. right. apply in_or_app. left.
    destruct alias as [alias|]; [|congruence].
    rewrite map_app. apply in_or_app.
    destruct existing as [|v rest]; simpl; auto.
Qed.

(** The alias values of the entry after a write of all the additions. *)
Lemma stored_aliases d name alias existing now attrs :
  entry_values
    (db_merge d SSH_HOSTS_SUBDIR name
       (attrs_put_all attrs (additions name (Some alias) existing now)))
    SSH_HOSTS_SUBDIR name SYSDB_NAME_ALIAS =
  attr_values attrs SYSDB_NAME_ALIAS
  ++ existing ++ (if has_alias alias existing then [] else [alias]).
Proof.
  rewrite entry_values_written.
  - now rewrite attr_values_attrs_put_all, added_values_additions_alias.
  - apply find_element_attrs_put_all. right.
    apply additions_names. discriminate.
Qed.

Lemma stored_values d name alias existing now attrs attr :
  In attr (map fst (additions name alias existing now)) ->
  entry_values
    (db_merge d SSH_HOSTS_SUBDIR name
       (attrs_put_all attrs (additions name alias existing now)))
    SSH_HOSTS_SUBDIR name attr =
  attr_values attrs attr
  ++ added_values (additions name alias existing now) attr.
Proof.
  intros H. rewrite entry_values_written.
  - now rewrite attr_values_attrs_put_all.
  - apply find_element_attrs_put_all. now right.
Qed.


(** ** An upsert that is served *)



(** ** The upsert with an alias *)

(** What a run that returns [EOK] has stored under the host's key. *)
Lemma sysdb_store_ssh_host_stored name alias now attrs w attrs' w' l :
  sysdb_store_ssh_host name (Some alias) now attrs w
  = Done (EOK, attrs') w' l ->
  fault w P_search_custom = EOK ->
  let existing := existing_aliases w name in
  let stored := entry_values (db w') SSH_HOSTS_SUBDIR name in
  find_entry (db w') SSH_HOSTS_SUBDIR name <> None /\
  stored SYSDB_NAME_ALIAS =
    attr_values attrs SYSDB_NAME_ALIAS
    ++ existing ++ (if has_alias alias existing then [] else [alias]) /\
  stored SYSDB_LAST_UPDATE =
    attr_values attrs SYSDB_LAST_UPDATE ++ [time_val now] /\
  stored SYSDB_OBJECTCLASS =
    attr_values attrs SYSDB_OBJECTCLASS ++ [SYSDB_SSH_HOST_OC].
Proof.
  intros H Hs existing stored.
  assert (Hs' : fault w P_search_custom <> ENOENT)
    by (rewrite Hs; discriminate).
  destruct (sysdb_store_ssh_host_run _ _ _ _ _ _ _ _ _ H Hs')
    as (done & Hbag' & _ & _ & _ & Hok & _).
  destruct (Hok eq_refl) as (-> & Hdb & _).
  subst attrs'. unfold stored. rewrite Hdb.
  split; [rewrite find_entry_db_merge; discriminate|].
  split; [apply stored_aliases|].
  split.
  - rewrite stored_values by apply additions_names.
    now rewrite added_values_additions_last_update.
  - rewrite stored_values by apply additions_names.
    now rewrite added_values_additions_objectclass.
Qed.




(** A stored alias that holds a NUL reads as the text before it: with the
    three bytes [a], NUL, [b] stored, [strcmp] finds the alias [a]
    present, and the upsert adds nothing to the aliases. *)
Example sysdb_store_ssh_host_alias_with_nul :
  let stored := String "a" (String NUL "b") in
  let w := sysdb_init
             [mk_msg SSH_HOSTS_SUBDIR "host1"
                [mk_el SYSDB_NAME ["host1"];
                 mk_el SYSDB_NAME_ALIAS [stored]]] in
  entry_values
    (db (world_after (sysdb_store_ssh_host "host1" (Some "a") 1010 []) w))
    SSH_HOSTS_SUBDIR "host1" SYSDB_NAME_ALIAS = [stored].
Proof. reflexivity. Qed.

(** ** All or nothing *)

(** The events of a known log that can be the one asked for, each with
    its equation. *)
Ltac event_cases H :=
  simpl in H;
  repeat (destruct H as [H|H]; [try discriminate H|]);
  try contradiction H;
  try (inversion H; subst; clear H).





(** ** The bag on every path *)

Lemma prefix_firstn {A} (p l : list A) n :
  is_prefix p l -> List.length p = Nat.min n (List.length l) ->
  p = firstn n l.
Proof.
  intros [rest ->] Hlen. rewrite length_app in Hlen.
  destruct (Nat.le_gt_cases n (List.length p)) as [Hle|Hgt].
  - assert (n = List.length p) by lia. subst n.
    rewrite firstn_app, Nat.sub_diag, firstn_all. simpl.
    now rewrite app_nil_r.
  - assert (List.length rest = O) by lia.
    destruct rest; [|discriminate].
    rewrite app_nil_r. symmetry. apply firstn_all2. lia.
Qed.

(** The additions made are the first [n] of all. *)
Ltac made_first :=
  cbn [heap additions_in_memory Nat.ltb Nat.leb Nat.max Nat.sub];
  first
    [ reflexivity
    | apply prefix_firstn;
      [ prefix
      | repeat match goal with
               | |- context [if ?b then _ else _] => destruct b
               end;
        cbn [List.length];
        rewrite ?length_app, ?length_map, ?length_firstn;
        cbn [List.length]; lia ] ].

(** The bag a run hands back, from where the run has ended. *)
Lemma sysdb_store_ssh_host_bag name alias now attrs w r attrs' w' l :
  sysdb_store_ssh_host name alias now attrs w = Done (r, attrs') w' l ->
  fault w P_search_custom <> ENOENT ->
  let all := additions name alias (existing_aliases w name) now in
  exists done,
    attrs' = attrs_put_all attrs done /\
    is_prefix done all /\
    (r = EOK -> done = all) /\
    (l <> [] -> (2 <= List.length done)%nat) /\
    (forall n s bag e,
       In (ev_store_custom n s bag e) l -> bag = attrs' /\ done = all) /\
    (stopped_by_store l -> done = firstn 2 all) /\
    ((forall n s bag e, ~ In (ev_store_custom n s bag e) l) ->
     ~ stopped_by_store l ->
     r = ENOMEM /\ done = firstn (additions_in_memory alias (heap w)) all).
Proof.
  destruct w as [h d t f em]. intros H Hs all. simpl in Hs.
  destruct alias as [alias|]; explore H; finish H; try congruence.
  all: match goal with
       | |- exists d, ?bag = attrs_put_all ?base d /\ _ =>
           let a := adds_of bag base in exists a
       end.
  all: split; [rewrite ?attrs_put_all_app; reflexivity|].
  all: unfold all; clear all; name_aliases.
  all: split; [prefix|].
  all: split; [intros Hr; first [reflexivity | discriminate Hr | congruence]|].
  all: split; [intros Hl; try congruence; rewrite ?length_app; simpl; lia|].
  all: split;
    [intros n s bag e Hin; event_cases Hin;
     (split; [rewrite ?attrs_put_all_app|]; reflexivity)|].
  all: split;
    [intros Hst;
     first
       [ reflexivity
       | exfalso;
         destruct Hst as [(e & Hin & He)|(f0 & s & a & e & n & Hin & Hc)];
         event_cases Hin; try congruence;
         destruct Hc as [[Hc1 Hc2]|Hc]; try congruence;
         simpl in *; lia ]|].
  all: intros Hno Hns.
  all: try (exfalso; eapply Hno; simpl; eauto 8; fail).
  all: try (exfalso; apply Hns; left; eexists; split;
            [simpl; eauto 6 | congruence]; fail).
  all: try (exfalso; apply Hns; right; eexists _, _, _, _, _; split;
            [simpl; eauto 6 |]; first [left; split; congruence | right; simpl in *; lia]; fail).
  all: split; [reflexivity|].
  all: made_first.
Qed.

(** ** The caller's bag *)

Lemma additions_with_alias name alias existing now :
  (alias_present alias existing ->
   additions name (Some alias) existing now =
   (SYSDB_OBJECTCLASS, SYSDB_SSH_HOST_OC) :: (SYSDB_NAME, name)
   :: map (pair SYSDB_NAME_ALIAS) existing
   ++ [(SYSDB_LAST_UPDATE, time_val now)]) /\
  (~ alias_present alias existing ->
   additions name (Some alias) existing now =
   (SYSDB_OBJECTCLASS, SYSDB_SSH_HOST_OC) :: (SYSDB_NAME, name)
   :: map (pair SYSDB_NAME_ALIAS) existing
   ++ [(SYSDB_NAME_ALIAS, alias); (SYSDB_LAST_UPDATE, time_val now)]).
Proof.
  unfold additions. split; intros Hp.
  - apply has_alias_spec in Hp. rewrite Hp, app_nil_r. reflexivity.
  - apply has_alias_false in Hp. rewrite Hp.
    cbn [app]. now rewrite <- app_assoc.
Qed.

(** C10: [sysdb_store_ssh_host] hands the caller's bag back with the
    additions it has made, in every run, failed or not, and takes none
    back.  All the additions of a call are the object class, the name,
    with an alias the aliases the lookup found and the new alias unless
    [strcmp] finds it among them, and the update time.  The additions
    made are a beginning of these: all of them in a run that returns
    [EOK] or gets to the write, whatever the write and the commit
    return, and the bag written is the bag handed back; the first two in
    a run that a failed transaction start, a failed search or a second
    match has stopped; and in a run that memory has stopped, which
    returns [ENOMEM], as many as there was memory for. *)
Theorem sysdb_store_ssh_host_changes_bag
    name alias now attrs w r attrs' w' l :
  sysdb_store_ssh_host name alias now attrs w = Done (r, attrs') w' l ->
  fault w P_search_custom <> ENOENT ->
  let existing := existing_aliases w name in
  let all := additions name alias existing now in
  let first :=
    [(SYSDB_OBJECTCLASS, SYSDB_SSH_HOST_OC); (SYSDB_NAME, name)] in
  let last := [(SYSDB_LAST_UPDATE, time_val now)] in
  (alias = None -> all = first ++ last) /\
  (forall a, alias = Some a -> alias_present a existing ->
     all = first ++ map (pair SYSDB_NAME_ALIAS) existing ++ last) /\
  (forall a, alias = Some a -> ~ alias_present a existing ->
     all = first ++ map (pair SYSDB_NAME_ALIAS) existing
           ++ [(SYSDB_NAME_ALIAS, a)] ++ last) /\
  exists done,
    attrs' = attrs_put_all attrs done /\
    is_prefix done all /\
    count_values attrs' = (count_values attrs + List.length done)%nat /\
    (r = EOK -> done = all) /\
    (forall n s bag e,
       In (ev_store_custom n s bag e) l -> bag = attrs' /\ done = all) /\
    (l <> [] -> (2 <= List.length done)%nat) /\
    (stopped_by_store l -> done = first) /\
    ((forall n s bag e, ~ In (ev_store_custom n s bag e) l) ->
     ~ stopped_by_store l ->
     r = ENOMEM /\
     done = firstn (additions_in_memory alias (heap w)) all).
Proof.
  intros H Hs existing all first last.
  split; [intros ->; reflexivity|].
  split; [intros a -> Hp; now apply additions_with_alias|].
  split; [intros a -> Hp; now apply additions_with_alias|].
  destruct (sysdb_store_ssh_host_bag _ _ _ _ _ _ _ _ _ H Hs)
    as (done & Hbag & Hpre & Hok & Hlen & Hwrite & Hstop & Hmem).
  exists done. repeat split; auto.
  - rewrite Hbag. apply count_values_attrs_put_all.
  - now apply (Hwrite n s bag e).
  - now apply (Hwrite n s bag e).
  - now apply Hmem.
  - now apply Hmem.
Qed.

(** Memory for the two first additions, the lookup and one more: the run
    returns [ENOMEM] with the object class, the name and the alias found
    in the bag. *)
Lemma sysdb_store_ssh_host_changes_bag_witness :
  let w := mk_world 7 [host1] [] no_fault true in
  exists attrs' w' l,
    sysdb_store_ssh_host "host1" (Some "h1-alt.example.com") 1010 [] w
    = Done (ENOMEM, attrs') w' l /\
    fault w P_search_custom <> ENOENT /\
    attrs' =
      attrs_put_all []
        [(SYSDB_OBJECTCLASS, SYSDB_SSH_HOST_OC); (SYSDB_NAME, "host1");
         (SYSDB_NAME_ALIAS, "h1.example.com")] /\
    count_values attrs' = 3%nat.
Proof.
  intros w. eexists _, _, _.
  split; [vm_compute; reflexivity|]. split; [discriminate|].
  destruct (sysdb_store_ssh_host_changes_bag
              "host1" (Some "h1-alt.example.com") 1010 [] w _ _ _ _ eq_refl)
    as (_ & _ & _ & done & Hbag & _ & Hcount & _ & _ & _ & _ & Hmem);
    [discriminate|].
  destruct Hmem as (_ & Hdone).
  - intros n s bag e Hin. event_cases Hin.
  - intros [(e & Hin & He)|(f & s & a & e & n & Hin & Hc)];
      event_cases Hin; [congruence|].
    destruct Hc as [[Hc _]|Hc]; [congruence | lia].
  - rewrite Hdone in Hbag, Hcount. split; [exact Hbag | exact Hcount].
Defined.

(** ** The upsert without an alias, and the expiry bump *)

(** C5: [sysdb_store_ssh_host] without an alias makes no store call but
    one write, which it makes whenever memory suffices: no search, no
    transaction.  The bag written is the caller's with the object class,
    the name and the update time [now] added, and nothing else. *)
Theorem sysdb_store_ssh_host_without_alias name now attrs w :
  let written :=
    attrs_put_all attrs
      [(SYSDB_OBJECTCLASS, SYSDB_SSH_HOST_OC); (SYSDB_NAME, name);
       (SYSDB_LAST_UPDATE, time_val now)] in
  exists r attrs' w' l,
    sysdb_store_ssh_host name None now attrs w = Done (r, attrs') w' l /\
    txn w' = txn w /\
    (l = [] /\ r = ENOMEM /\ db w' = db w /\ (heap w < 5)%nat
     \/ l = [ev_store_custom name SSH_HOSTS_SUBDIR written r]
        /\ attrs' = written /\ (5 <= heap w)%nat) /\
    attr_values written SYSDB_OBJECTCLASS =
      attr_values attrs SYSDB_OBJECTCLASS ++ [SYSDB_SSH_HOST_OC] /\
    attr_values written SYSDB_NAME = attr_values attrs SYSDB_NAME ++ [name] /\
    attr_values written SYSDB_LAST_UPDATE =
      attr_values attrs SYSDB_LAST_UPDATE ++ [time_val now] /\
    (forall attr,
       attr <> SYSDB_OBJECTCLASS -> attr <> SYSDB_NAME ->
       attr <> SYSDB_LAST_UPDATE ->
       find_element written attr = find_element attrs attr).
Proof.
  intros written.
  destruct (sysdb_store_ssh_host name None now attrs w)
    as [[r attrs'] w' l|] eqn:H.
  - exists r, attrs', w', l. split; [reflexivity|].
    assert (Hrun : txn w' = txn w /\
              (l = [] /\ r = ENOMEM /\ db w' = db w /\ (heap w < 5)%nat
               \/ l = [ev_store_custom name SSH_HOSTS_SUBDIR written r]
                  /\ attrs' = written /\ (5 <= heap w)%nat)).
    { destruct w as [h d t f em].
      explore H; finish H; (split; [reflexivity|]).
      all: first [ left; repeat split; simpl; lia
                 | right; repeat split; simpl; lia ]. }
    destruct Hrun as [Htxn Hlog].
    split; [exact Htxn|]. split; [exact Hlog|].
    unfold written. rewrite !attr_values_attrs_put_all.
    repeat split.
    intros attr H1 H2 H3. simpl.
    rewrite !find_element_attrs_put_other; auto.
  - exfalso. destruct w as [h d t f em]. explore H; discriminate H.
Qed.

(** C6: when the sum [now + known_hosts_timeout] is a [time_t],
    [sysdb_update_ssh_known_host_expire] makes no store call but one merge
    write, which it makes whenever memory suffices, and opens no
    transaction.  The bag written holds the expiry time [now +
    known_hosts_timeout] and nothing else, so that after the call the
    host's entry has that expiry time, and every other attribute of every
    entry, the host's aliases and update time among them, is as before. *)
Theorem sysdb_update_ssh_known_host_expire_narrow name now timeout w :
  time_t_range (now + timeout) = true ->
  let written :=
    [mk_el SYSDB_SSH_KNOWN_HOSTS_EXPIRE [time_val (now + timeout)]] in
  exists r w' l,
    sysdb_update_ssh_known_host_expire name now timeout w = Done r w' l /\
    txn w' = txn w /\
    (l = [] /\ r = ENOMEM /\ (heap w < 4)%nat
     \/ l = [ev_store_custom name SSH_HOSTS_SUBDIR written r]
        /\ (4 <= heap w)%nat) /\
    (r = EOK ->
     entry_values (db w') SSH_HOSTS_SUBDIR name SYSDB_SSH_KNOWN_HOSTS_EXPIRE
     = [time_val (now + timeout)]) /\
    (forall subdir key attr,
       subdir <> SSH_HOSTS_SUBDIR \/ key <> name
       \/ attr <> SYSDB_SSH_KNOWN_HOSTS_EXPIRE ->
       entry_values (db w') subdir key attr
       = entry_values (db w) subdir key attr).
Proof.
  intros Hrange written.
  assert (Hframe : forall d subdir key attr,
             subdir <> SSH_HOSTS_SUBDIR \/ key <> name
             \/ attr <> SYSDB_SSH_KNOWN_HOSTS_EXPIRE ->
             entry_values (db_merge d SSH_HOSTS_SUBDIR name written)
                          subdir key attr
             = entry_values d subdir key attr).
  { intros d subdir key attr Hne.
    destruct (String.eqb_spec subdir SSH_HOSTS_SUBDIR) as [->|Hs];
      [destruct (String.eqb_spec key name) as [->|Hk]|].
    - rewrite entry_values_db_merge.
      destruct Hne as [Hne|[Hne|Hne]]; try congruence.
      apply not_eq_sym, String.eqb_neq in Hne.
      unfold written. cbn [find_element el_name]. now rewrite Hne.
    - unfold entry_values. rewrite find_entry_db_merge_other; auto.
    - unfold entry_values. rewrite find_entry_db_merge_other; auto. }
  destruct (sysdb_update_ssh_known_host_expire name now timeout w)
    as [r w' l|] eqn:H.
  - exists r, w', l. split; [reflexivity|].
    destruct w as [h d t f em].
    explore H; finish H; (split; [reflexivity|]).
    all: split; [first [ left; repeat split; simpl; lia
                       | right; repeat split; simpl; lia ]|].
    all: split; [intros Hr; try discriminate Hr; try congruence|];
      try (intros; reflexivity).
    all: try (simpl; now rewrite entry_values_db_merge).
    all: intros subdir key attr Hne; now apply Hframe.
  - exfalso. destruct w as [h d t f em].
    explore H; try discriminate H. all: congruence.
Qed.

Lemma sysdb_update_ssh_known_host_expire_narrow_witness :
  let w := sysdb_init [host1] in
  time_t_range (1010 + 300) = true /\
  exists w',
    sysdb_update_ssh_known_host_expire "host1" 1010 300 w
    = Done EOK w'
        [ev_store_custom "host1" SSH_HOSTS_SUBDIR
           [mk_el SYSDB_SSH_KNOWN_HOSTS_EXPIRE ["1310"]] EOK] /\
    entry_values (db w') SSH_HOSTS_SUBDIR "host1" SYSDB_NAME_ALIAS
    = ["h1.example.com"] /\
    entry_values (db w') SSH_HOSTS_SUBDIR "host1" SYSDB_LAST_UPDATE
    = ["1000"].
Proof.
  intros w. split; [reflexivity|].
  destruct (sysdb_update_ssh_known_host_expire_narrow
              "host1" 1010 300 w eq_refl)
    as (r & w' & l & Hrun & _ & _ & _ & Hframe).
  vm_compute in Hrun. injection Hrun as <- <- <-.
  eexists. split; [vm_compute; reflexivity|].
  split; apply Hframe; right; right; discriminate.
Defined.

(** ** The lookups *)

(** Running the code in the goal. *)
Ltac run_goal :=
  unfold_code;
  cbn -[attrs_put attrs_put_all time_val search_results db_merge copy_aliases
        find_element SYSDB_OBJECTCLASS SYSDB_SSH_HOST_OC SYSDB_NAME
        SYSDB_NAME_ALIAS SYSDB_LAST_UPDATE SYSDB_SSH_KNOWN_HOSTS_EXPIRE
        SSH_HOSTS_SUBDIR Nat.ltb time_t_range Z.add].

Lemma search_contract_enoent w :
  empty_is_enoent w = true -> search_contract w.
Proof.
  destruct w as [h d t f em]. simpl. intros ->.
  intros flt subdir attrs r n res w' log H Hr.
  explore H; finish H; try discriminate; try congruence.
  simpl. split; [lia|reflexivity].
Qed.

(** C9: [sysdb_get_ssh_host] reads [hosts[0]] whenever the search has
    returned [EOK] with at most one result.  Over a store that keeps the
    contract (a search that returns [EOK] has found an entry) the read is
    within bounds and the function is defined; it is undefined exactly
    when the search returns [EOK] without a result; and when it returns
    [EOK] the host it hands out is the single entry the search found. *)
Theorem sysdb_get_ssh_host_bounds name attrs w :
  (search_contract w -> sysdb_get_ssh_host name attrs w <> Undefined) /\
  (sysdb_get_ssh_host name attrs w = Undefined <->
   (3 <= heap w)%nat /\ fault w P_search_custom = EOK /\
   empty_is_enoent w = false /\
   search_results (db w) (filter_eq SYSDB_NAME name) SSH_HOSTS_SUBDIR attrs
   = []) /\
  (forall host w' l,
     sysdb_get_ssh_host name attrs w = Done (EOK, host) w' l ->
     exists h,
       search_results (db w) (filter_eq SYSDB_NAME name) SSH_HOSTS_SUBDIR
         attrs = [h] /\
       host = Some h).
Proof.
  assert (Hundef : sysdb_get_ssh_host name attrs w = Undefined <->
            (3 <= heap w)%nat /\ fault w P_search_custom = EOK /\
            empty_is_enoent w = false /\
            search_results (db w) (filter_eq SYSDB_NAME name)
              SSH_HOSTS_SUBDIR attrs = []).
  { destruct w as [h d t f em]. split.
    - intros H. explore H; try discriminate H; tidy.
      simpl. repeat split; auto. lia.
    - simpl. intros (Hh & Hf & -> & Hres).
      destruct h as [|[|[|h]]]; try lia.
      run_goal. apply Z.eqb_eq in Hf. cbn in Hf. rewrite Hf.
      rewrite Hres. reflexivity. }
  split; [|split; [exact Hundef|]].
  - intros Hc H. apply Hundef in H as (_ & Hf & He & Hres).
    destruct (Hc (filter_eq SYSDB_NAME name) SSH_HOSTS_SUBDIR attrs
                 EOK O [] w
                 [ev_search_custom (filter_eq SYSDB_NAME name)
                    SSH_HOSTS_SUBDIR attrs EOK O]) as [Hn _]; try lia; auto.
    unfold sysdb_search_custom. rewrite Hf, Hres, He. reflexivity.
  - intros host w' l H. clear Hundef. destruct w as [h d t f em].
    explore H; finish H; try discriminate; try congruence.
    all: match goal with
         | E : (S (List.length ?ms) <= 1)%nat |- _ =>
             destruct ms; [|simpl in E; lia]
         end.
    all: eexists; split; [cbn [db]; eassumption | reflexivity].
Qed.

Lemma sysdb_get_ssh_host_bounds_witness :
  search_contract (sysdb_init [host1]) /\
  sysdb_get_ssh_host "host2" None (sysdb_init [host1]) <> Undefined.
Proof.
  assert (Hc : search_contract (sysdb_init [host1]))
    by (apply search_contract_enoent; reflexivity).
  split; [exact Hc|].
  exact (proj1 (sysdb_get_ssh_host_bounds "host2" None (sysdb_init [host1]))
           Hc).
Defined.

(** Over a store whose search succeeds without a result, the lookup of a
    host that is not stored reads outside the result array. *)
Example sysdb_get_ssh_host_out_of_bounds :
  sysdb_get_ssh_host "host2" None (mk_world 1000 [host1] [] no_fault false)
  = Undefined.
Proof. reflexivity. Qed.

Lemma search_results_none d f subdir attrs :
  (forall m, In m d -> msg_subdir m = subdir -> filter_matches f m = false) ->
  search_results d f subdir attrs = [].
Proof.
  unfold search_results. intros H.
  induction d as [|m ms IH]; [reflexivity|].
  cbn [filter]. unfold in_subdir at 1.
  destruct (String.eqb_spec (msg_subdir m) subdir) as [E|E]; cbn [andb].
  - rewrite (H m (or_introl eq_refl) E). apply IH.
    intros m' Hin. apply H. now right.
  - apply IH. intros m' Hin. apply H. now right.
Qed.

(** C4, as amended: when no stored host is live at [now], memory suffices
    and the search is served, [sysdb_get_ssh_known_hosts] returns what the
    store reports for a search without matches.  Over the sysdb store,
    which reports [ENOENT], it returns [ENOENT] having set the result to
    [NULL] with the count zero; over a store whose search succeeds without
    results it returns [EOK] with an empty array. *)
Theorem sysdb_get_ssh_known_hosts_none_live now attrs w :
  (forall m, In m (db w) -> msg_subdir m = SSH_HOSTS_SUBDIR ->
             live now m = false) ->
  (3 <= heap w)%nat ->
  fault w P_search_custom = EOK ->
  exists w',
    db w' = db w /\ txn w' = txn w /\
    sysdb_get_ssh_known_hosts now attrs w =
    Done (if empty_is_enoent w
          then (ENOENT, Some (None, O))
          else (EOK, Some (Some [], O)))
         w'
         [ev_search_custom (filter_ge SYSDB_SSH_KNOWN_HOSTS_EXPIRE now)
            SSH_HOSTS_SUBDIR attrs
            (if empty_is_enoent w then ENOENT else EOK) O].
Proof.
  intros Hlive Hheap Hf.
  assert (Hres : search_results (db w)
                   (filter_ge SYSDB_SSH_KNOWN_HOSTS_EXPIRE now)
                   SSH_HOSTS_SUBDIR attrs = []).
  { apply search_results_none. exact Hlive. }
  destruct w as [h d t f em]. simpl in *.
  destruct h as [|[|[|h]]]; try lia.
  eexists. split; [|split]; cycle 2.
  - run_goal. apply Z.eqb_eq in Hf. cbn in Hf.
    rewrite Hf, Hres. destruct em; reflexivity.
  - reflexivity.
  - reflexivity.
Qed.

Lemma sysdb_get_ssh_known_hosts_none_live_witness :
  let w := sysdb_init [host1] in
  (forall m, In m (db w) -> msg_subdir m = SSH_HOSTS_SUBDIR ->
             live 2000 m = false) /\
  (3 <= heap w)%nat /\
  fault w P_search_custom = EOK /\
  exists w',
    sysdb_get_ssh_known_hosts 2000 None w =
    Done (ENOENT, Some (None, O)) w'
         [ev_search_custom (filter_ge SYSDB_SSH_KNOWN_HOSTS_EXPIRE 2000)
            SSH_HOSTS_SUBDIR None ENOENT O].
Proof.
  intros w.
  assert (Hlive : forall m, In m (db w) -> msg_subdir m = SSH_HOSTS_SUBDIR ->
                            live 2000 m = false).
  { intros m [<-|[]] _. reflexivity. }
  assert (Hheap : (3 <= heap w)%nat) by (simpl; lia).
  split; [exact Hlive|]. split; [exact Hheap|]. split; [reflexivity|].
  destruct (sysdb_get_ssh_known_hosts_none_live 2000 None w
              Hlive Hheap eq_refl) as (w' & _ & _ & Hrun).
  exists w'. exact Hrun.
Defined.

(** C4, as stated, fails: no host of the store is live at 2000, and the
    call returns [ENOENT], not [EOK]. *)
Lemma sysdb_get_ssh_known_hosts_not_success :
  (forall m, In m (db (sysdb_init [host1])) -> live 2000 m = false) /\
  returned (sysdb_get_ssh_known_hosts 2000 None) (sysdb_init [host1])
  = Some (ENOENT, Some (None, O)) /\
  ~ (exists out w' l,
       sysdb_get_ssh_known_hosts 2000 None (sysdb_init [host1])
       = Done (EOK, out) w' l).
Proof.
  split; [|split].
  - intros m [<-|[]]. reflexivity.
  - reflexivity.
  - intros (out & w' & l & H). vm_compute in H. discriminate H.
Qed.

(** ** A name that is not unique *)

(** C2, as amended: when the lookup by name finds more than one entry,
    both [sysdb_get_ssh_host] and [sysdb_store_ssh_host] with an alias
    return [EINVAL], the code this file gives to the case, after a single
    search that itself returned [EOK].  The upsert then cancels the
    transaction it opened as its last store call and leaves the entries
    as they were; it leaves no transaction open when the cancel succeeds,
    and its own transaction open when the cancel fails. *)
Theorem ambiguous_host_name name alias now attrs search_attrs w :
  (1 < List.length (lookup_host w name))%nat ->
  fault w P_search_custom = EOK ->
  ((3 <= heap w)%nat ->
   exists w1 n,
     sysdb_get_ssh_host name search_attrs w =
     Done (EINVAL, None) w1
          [ev_search_custom (filter_eq SYSDB_NAME name) SSH_HOSTS_SUBDIR
             search_attrs EOK n] /\
     (1 < n)%nat /\ db w1 = db w /\ txn w1 = txn w) /\
  ((6 <= heap w)%nat ->
   fault w P_transaction_start = EOK ->
   exists attrs' w' n,
     sysdb_store_ssh_host name (Some alias) now attrs w =
     Done (EINVAL, attrs') w'
          [ev_transaction_start EOK;
           ev_search_custom (filter_eq SYSDB_NAME name) SSH_HOSTS_SUBDIR
             (Some [SYSDB_NAME_ALIAS]) EOK n;
           ev_transaction_cancel (fault w P_transaction_cancel)] /\
     (1 < n)%nat /\ db w' = db w /\
     (fault w P_transaction_cancel = EOK -> txn w' = txn w) /\
     (fault w P_transaction_cancel <> EOK -> txn w' = db w :: txn w)).
Proof.
  intros Hmany Hsearch.
  assert (Hres : forall sa,
             exists m1 m2 ms,
               search_results (db w) (filter_eq SYSDB_NAME name)
                 SSH_HOSTS_SUBDIR sa = m1 :: m2 :: ms).
  { intros sa. rewrite search_results_lookup_host.
    destruct (lookup_host w name) as [|m1 [|m2 ms]]; simpl in Hmany; try lia.
    now eexists _, _, _. }
  destruct w as [h d t f em]. cbn [heap fault db txn] in *.
  apply Z.eqb_eq in Hsearch. cbn in Hsearch.
  split.
  - intros Hheap. destruct h as [|[|[|h]]]; try lia.
    destruct (Hres search_attrs) as (m1 & m2 & ms & R).
    run_goal. rewrite Hsearch, R. cbn.
    eexists _, _. split; [reflexivity|]. repeat split. lia.
  - intros Hheap Hstart. destruct h as [|[|[|[|[|[|h]]]]]]; try lia.
    destruct (Hres (Some [SYSDB_NAME_ALIAS])) as (m1 & m2 & ms & R).
    apply Z.eqb_eq in Hstart. cbn in Hstart.
    run_goal. rewrite Hstart. run_goal. rewrite Hsearch, R. cbn.
    destruct (f P_transaction_cancel =? EOK) eqn:Hc; cbn.
    + apply Z.eqb_eq in Hc. rewrite Hc.
      eexists _, _, _. split; [reflexivity|].
      split; [lia|]. split; [reflexivity|]. split; [reflexivity|].
      intros E. now contradiction E.
    + apply Z.eqb_neq in Hc.
      eexists _, _, _. split; [reflexivity|].
      split; [lia|]. split; [reflexivity|].
      split; [intros E; contradiction | reflexivity].
Qed.

(** A store in which two entries carry the name [host1]. *)
Lemma ambiguous_host_name_witness :
  let twin := mk_msg SSH_HOSTS_SUBDIR "host1b" [mk_el SYSDB_NAME ["host1"]] in
  let w := sysdb_init [host1; twin] in
  (1 < List.length (lookup_host w "host1"))%nat /\
  fault w P_search_custom = EOK /\
  (exists w1,
     sysdb_get_ssh_host "host1" None w =
     Done (EINVAL, None) w1
          [ev_search_custom (filter_eq SYSDB_NAME "host1") SSH_HOSTS_SUBDIR
             None EOK 2]) /\
  (exists attrs' w',
     sysdb_store_ssh_host "host1" (Some "h1-alt.example.com") 1010 [] w =
     Done (EINVAL, attrs') w'
          [ev_transaction_start EOK;
           ev_search_custom (filter_eq SYSDB_NAME "host1") SSH_HOSTS_SUBDIR
             (Some [SYSDB_NAME_ALIAS]) EOK 2;
           ev_transaction_cancel EOK] /\
     db w' = db w /\ txn w' = []).
Proof.
  intros twin w.
  assert (Hmany : (1 < List.length (lookup_host w "host1"))%nat)
    by (vm_compute; lia).
  split; [exact Hmany|]. split; [reflexivity|].
  destruct (ambiguous_host_name "host1" "h1-alt.example.com" 1010 []
              None w Hmany eq_refl) as (Hget & Hstore).
  split.
  - destruct Hget as (w1 & n & Hrun & _); [simpl; lia|].
    vm_compute in Hrun. injection Hrun as <- <-.
    eexists. vm_compute. reflexivity.
  - destruct Hstore as (attrs' & w' & n & Hrun & _ & Hdb & Htxn & _);
      [simpl; lia | reflexivity |].
    exists attrs', w'. split; [|split; [exact Hdb | now apply Htxn]].
    rewrite Hrun. vm_compute in Hrun. injection Hrun as _ _ <-.
    reflexivity.
Defined.

(** C2, as stated, fails.  The code of the case is no kind of its own:
    [EINVAL] is returned for a name with two entries and also for a name
    with one entry when the search itself fails with [EINVAL], so that
    the caller cannot tell the two apart.  And a transaction stays open
    when the cancel fails. *)
Lemma ambiguous_host_name_not_distinct :
  let twin := mk_msg SSH_HOSTS_SUBDIR "host1b" [mk_el SYSDB_NAME ["host1"]] in
  ~ (forall w1 w2 r1 r2 h1 h2 w1' w2' l1 l2,
       (1 < List.length (lookup_host w1 "host1"))%nat ->
       (List.length (lookup_host w2 "host1") <= 1)%nat ->
       sysdb_get_ssh_host "host1" None w1 = Done (r1, h1) w1' l1 ->
       sysdb_get_ssh_host "host1" None w2 = Done (r2, h2) w2' l2 ->
       r2 <> EOK -> r2 <> ENOENT ->
       r1 <> r2) /\
  ~ (forall w r attrs' w' l,
       (1 < List.length (lookup_host w "host1"))%nat ->
       sysdb_store_ssh_host "host1" (Some "h1-alt.example.com") 1010 [] w
       = Done (r, attrs') w' l ->
       txn w' = txn w).
Proof.
  intros twin. split; intros claim.
  - refine (claim (sysdb_init [host1; twin])
                  (sysdb_faulty P_search_custom EINVAL [host1])
                  EINVAL EINVAL _ _ _ _ _ _ _ _ eq_refl eq_refl _ _ eq_refl).
    + vm_compute. lia.
    + vm_compute. lia.
    + discriminate.
    + discriminate.
  - pose proof (claim (sysdb_faulty P_transaction_cancel EIO [host1; twin])
                  _ _ _ _ ltac:(vm_compute; lia) eq_refl) as E.
    discriminate E.
Qed.

(** ** The scenario *)

Example scenario_entries :
  db scenario =
  [mk_msg SSH_HOSTS_SUBDIR "host1"
     [mk_el "region" ["us"];
      mk_el SYSDB_OBJECTCLASS [SYSDB_SSH_HOST_OC];
      mk_el SYSDB_NAME ["host1"];
      mk_el SYSDB_NAME_ALIAS ["h1.example.com"; "h1-alt.example.com"];
      mk_el SYSDB_LAST_UPDATE ["1010"];
      mk_el SYSDB_SSH_KNOWN_HOSTS_EXPIRE ["1310"]]]
  /\ txn scenario = [].
Proof. split; reflexivity. Qed.

Example scenario_live_at_1300 :
  returned (sysdb_get_ssh_known_hosts 1300 (Some [SYSDB_NAME])) scenario =
  Some (EOK,
        Some (Some [mk_msg SSH_HOSTS_SUBDIR "host1"
                      [mk_el SYSDB_NAME ["host1"]]], 1%nat)).
Proof. reflexivity. Qed.

Example scenario_not_live_at_1400 :
  returned (sysdb_get_ssh_known_hosts 1400 (Some [SYSDB_NAME])) scenario =
  Some (ENOENT, Some (None, O)).
Proof. reflexivity. Qed.

Example scenario_get_after_delete :
  returned (sysdb_get_ssh_host "host1" None)
           (world_after (sysdb_delete_ssh_host "host1") scenario)
  = Some (ENOENT, None).
Proof. reflexivity. Qed.

(** * Further properties *)

(** ** The lookups, run by run *)

(** X1: what [sysdb_search_ssh_hosts] writes through its result pointers
    goes with its return code.  With [EOK] it has written the array the
    store returned and, as the count, the length of that array; with
    [ENOENT] it has written [NULL] and zero; with any other code it has
    written nothing. *)
Theorem sysdb_search_ssh_hosts_outputs filter attrs w r out w' l :
  sysdb_search_ssh_hosts filter attrs w = Done (r, out) w' l ->
  (r = EOK ->
   out = Some (Some (search_results (db w) filter SSH_HOSTS_SUBDIR attrs),
               List.length
                 (search_results (db w) filter SSH_HOSTS_SUBDIR attrs))) /\
  (r = ENOENT -> out = Some (None, O)) /\
  (r <> EOK -> r <> ENOENT -> out = None).
Proof.
  destruct w as [h d t f em]. intros H.
  explore H; finish H; repeat split; intros; try congruence;
    try discriminate.
  all: cbn [db]; repeat match goal with
                        | E : search_results _ _ _ _ = _ |- _ => rewrite E
                        end; reflexivity.
Qed.

Lemma sysdb_search_ssh_hosts_outputs_witness :
  let w := sysdb_init [host1] in
  exists out w' l,
    sysdb_search_ssh_hosts (filter_eq SYSDB_NAME "host1")
      (Some [SYSDB_NAME_ALIAS]) w = Done (EOK, out) w' l /\
    out = Some (Some [mk_msg SSH_HOSTS_SUBDIR "host1"
                        [mk_el SYSDB_NAME_ALIAS ["h1.example.com"]]],
                1%nat).
Proof.
  intros w. eexists _, _, _. split; [vm_compute; reflexivity|].
  apply (sysdb_search_ssh_hosts_outputs (filter_eq SYSDB_NAME "host1")
           (Some [SYSDB_NAME_ALIAS]) w EOK _ _ _ eq_refl).
  reflexivity.
Defined.

(** X2: the lookups only read.  In every run, [sysdb_get_ssh_host] and
    [sysdb_get_ssh_known_hosts] leave the entries and the open
    transactions as they were, and the only store call they make is a
    search, once at most. *)
Theorem lookups_read_only w :
  (forall name attrs res w' l,
     sysdb_get_ssh_host name attrs w = Done res w' l ->
     db w' = db w /\ txn w' = txn w /\
     (l = [] \/ exists e, l = [e] /\ prim_of e = P_search_custom)) /\
  (forall now attrs res w' l,
     sysdb_get_ssh_known_hosts now attrs w = Done res w' l ->
     db w' = db w /\ txn w' = txn w /\
     (l = [] \/ exists e, l = [e] /\ prim_of e = P_search_custom)).
Proof.
  destruct w as [h d t f em]. split.
  - intros name attrs res w' l H.
    explore H; finish H; repeat split; eauto.
  - intros now attrs res w' l H.
    explore H; finish H; repeat split; eauto.
Qed.

Lemma lookups_read_only_witness :
  let w := sysdb_init [host1] in
  db (world_after (sysdb_get_ssh_host "host1" None) w) = db w /\
  db (world_after (sysdb_get_ssh_known_hosts 1000 None) w) = db w.
Proof.
  intros w. destruct (lookups_read_only w) as [Hget Hlist]. split.
  - exact (proj1 (Hget "host1" None _
                    (world_after (sysdb_get_ssh_host "host1" None) w) _
                    eq_refl)).
  - exact (proj1 (Hlist 1000 None _
                    (world_after (sysdb_get_ssh_known_hosts 1000 None) w) _
                    eq_refl)).
Defined.

(** X3: [sysdb_get_ssh_host] writes [*host] exactly when it returns [EOK].
    Without memory it returns [ENOMEM] before any store call; otherwise it
    makes one search by name, and returns the search's code when that is
    not [EOK], [EINVAL] when the search found more than one entry, and
    [EOK] else. *)
Theorem sysdb_get_ssh_host_result name attrs w r host w' l :
  sysdb_get_ssh_host name attrs w = Done (r, host) w' l ->
  (host <> None <-> r = EOK) /\
  (l = [] /\ r = ENOMEM /\ (heap w < 3)%nat
   \/ exists e n,
        l = [ev_search_custom (filter_eq SYSDB_NAME name) SSH_HOSTS_SUBDIR
               attrs e n] /\
        (3 <= heap w)%nat /\
        (e <> EOK -> r = e) /\
        (e = EOK -> (1 < n)%nat -> r = EINVAL) /\
        (e = EOK -> (n <= 1)%nat -> r = EOK)).
Proof.
  destruct w as [h d t f em]. intros H.
  explore H; finish H.
  all: split; [split; intros; congruence || discriminate|].
  all: first [ left; repeat split; simpl; lia
             | right; eexists _, _; split; [reflexivity|];
               repeat split; simpl; intros; try lia; try congruence ].
Qed.

Lemma sysdb_get_ssh_host_result_witness :
  let w := sysdb_faulty P_search_custom EIO [host1] in
  exists r host w' l,
    sysdb_get_ssh_host "host1" None w = Done (r, host) w' l /\
    (host <> None <-> r = EOK) /\ r = EIO.
Proof.
  intros w. eexists _, _, _, _. split; [vm_compute; reflexivity|].
  destruct (sysdb_get_ssh_host_result "host1" None w EIO None _ _ eq_refl)
    as (Hhost & _).
  split; [exact Hhost | reflexivity].
Defined.

(** A lookup that finds its host. *)
Lemma sysdb_get_ssh_host_found_run name attrs w m :
  lookup_host w name = [m] ->
  (3 <= heap w)%nat ->
  fault w P_search_custom = EOK ->
  sysdb_get_ssh_host name attrs w =
  Done (EOK, Some (project attrs m)) (set_heap (heap w - 3) w)
       [ev_search_custom (filter_eq SYSDB_NAME name) SSH_HOSTS_SUBDIR
          attrs EOK 1].
Proof.
  intros Hm Hheap Hf.
  assert (Hres : search_results (db w) (filter_eq SYSDB_NAME name)
                   SSH_HOSTS_SUBDIR attrs = [project attrs m])
    by (rewrite search_results_lookup_host, Hm; reflexivity).
  destruct w as [h d t f em]. cbn [heap fault db] in *.
  destruct h as [|[|[|h]]]; try lia.
  apply Z.eqb_eq in Hf. cbn in Hf.
  run_goal. rewrite Hf, Hres. cbn.
  replace (h - 0)%nat with h by lia. reflexivity.
Qed.

(** X4: when exactly one entry carries the name, memory suffices and the
    search is served, [sysdb_get_ssh_host] returns [EOK] and hands out that
    entry with the attributes asked for, after one search; only the heap
    has changed. *)
Theorem sysdb_get_ssh_host_found name attrs w m :
  lookup_host w name = [m] ->
  (3 <= heap w)%nat ->
  fault w P_search_custom = EOK ->
  sysdb_get_ssh_host name attrs w =
  Done (EOK, Some (project attrs m)) (set_heap (heap w - 3) w)
       [ev_search_custom (filter_eq SYSDB_NAME name) SSH_HOSTS_SUBDIR
          attrs EOK 1].
Proof. exact (sysdb_get_ssh_host_found_run name attrs w m). Qed.

Lemma sysdb_get_ssh_host_found_witness :
  let w := sysdb_init [host1] in
  lookup_host w "host1" = [host1] /\
  (3 <= heap w)%nat /\
  fault w P_search_custom = EOK /\
  returned (sysdb_get_ssh_host "host1" (Some [SYSDB_NAME_ALIAS])) w =
  Some (EOK, Some (mk_msg SSH_HOSTS_SUBDIR "host1"
                     [mk_el SYSDB_NAME_ALIAS ["h1.example.com"]])).
Proof.
  intros w.
  assert (Hm : lookup_host w "host1" = [host1]) by reflexivity.
  assert (Hheap : (3 <= heap w)%nat) by (simpl; lia).
  split; [exact Hm|]. split; [exact Hheap|]. split; [reflexivity|].
  unfold returned.
  rewrite (sysdb_get_ssh_host_found "host1" (Some [SYSDB_NAME_ALIAS]) w
             host1 Hm Hheap eq_refl).
  reflexivity.
Defined.

(** A lookup that finds no host. *)
Lemma sysdb_get_ssh_host_missing_run name attrs w :
  lookup_host w name = [] ->
  empty_is_enoent w = true ->
  (3 <= heap w)%nat ->
  fault w P_search_custom = EOK ->
  sysdb_get_ssh_host name attrs w =
  Done (ENOENT, None) (set_heap (heap w - 3) w)
       [ev_search_custom (filter_eq SYSDB_NAME name) SSH_HOSTS_SUBDIR
          attrs ENOENT 0].
Proof.
  intros Hm Hem Hheap Hf.
  assert (Hres : search_results (db w) (filter_eq SYSDB_NAME name)
                   SSH_HOSTS_SUBDIR attrs = [])
    by (rewrite search_results_lookup_host, Hm; reflexivity).
  destruct w as [h d t f em]. cbn [heap fault db empty_is_enoent] in *.
  destruct h as [|[|[|h]]]; try lia.
  apply Z.eqb_eq in Hf. cbn in Hf. subst em.
  run_goal. rewrite Hf, Hres. cbn.
  replace (h - 0)%nat with h by lia. reflexivity.
Qed.

(** X5: when no entry carries the name and the store reports a search
    without matches as [ENOENT], [sysdb_get_ssh_host] returns [ENOENT]
    and leaves [*host] unwritten. *)
Theorem sysdb_get_ssh_host_missing name attrs w :
  lookup_host w name = [] ->
  empty_is_enoent w = true ->
  (3 <= heap w)%nat ->
  fault w P_search_custom = EOK ->
  sysdb_get_ssh_host name attrs w =
  Done (ENOENT, None) (set_heap (heap w - 3) w)
       [ev_search_custom (filter_eq SYSDB_NAME name) SSH_HOSTS_SUBDIR
          attrs ENOENT 0].
Proof. exact (sysdb_get_ssh_host_missing_run name attrs w). Qed.

Lemma sysdb_get_ssh_host_missing_witness :
  let w := sysdb_init [host1] in
  lookup_host w "host2" = [] /\
  empty_is_enoent w = true /\
  (3 <= heap w)%nat /\
  fault w P_search_custom = EOK /\
  returned (sysdb_get_ssh_host "host2" None) w = Some (ENOENT, None).
Proof.
  intros w.
  assert (Hm : lookup_host w "host2" = []) by reflexivity.
  assert (Hheap : (3 <= heap w)%nat) by (simpl; lia).
  split; [exact Hm|]. split; [reflexivity|]. split; [exact Hheap|].
  split; [reflexivity|].
  unfold returned.
  rewrite (sysdb_get_ssh_host_missing "host2" None w Hm eq_refl Hheap
             eq_refl).
  reflexivity.
Defined.

Lemma search_results_In d f subdir attrs h :
  In h (search_results d f subdir attrs) <->
  exists m, In m d /\ msg_subdir m = subdir /\ filter_matches f m = true
            /\ h = project attrs m.
Proof.
  unfold search_results. rewrite in_map_iff. split.
  - intros (m & <- & Hin). apply filter_In in Hin as (Hin & Hp).
    apply andb_true_iff in Hp as (Hs & Hm).
    apply String.eqb_eq in Hs. now exists m.
  - intros (m & Hin & Hs & Hm & ->). exists m. split; [reflexivity|].
    apply filter_In. split; [exact Hin|].
    apply andb_true_iff. split; [|exact Hm].
    now apply String.eqb_eq.
Qed.

(** A search for live hosts that finds some. *)
Lemma sysdb_get_ssh_known_hosts_live_run now attrs w m :
  In m (db w) -> msg_subdir m = SSH_HOSTS_SUBDIR -> live now m = true ->
  (3 <= heap w)%nat ->
  fault w P_search_custom = EOK ->
  exists hosts,
    sysdb_get_ssh_known_hosts now attrs w =
    Done (EOK, Some (Some hosts, List.length hosts))
         (set_heap (heap w - 3) w)
         [ev_search_custom (filter_ge SYSDB_SSH_KNOWN_HOSTS_EXPIRE now)
            SSH_HOSTS_SUBDIR attrs EOK (List.length hosts)] /\
    hosts <> [] /\
    (forall h,
       In h hosts <->
       exists m', In m' (db w) /\ msg_subdir m' = SSH_HOSTS_SUBDIR /\
                  live now m' = true /\ h = project attrs m').
Proof.
  intros Hin Hsub Hlive Hheap Hf.
  exists (search_results (db w) (filter_ge SYSDB_SSH_KNOWN_HOSTS_EXPIRE now)
            SSH_HOSTS_SUBDIR attrs).
  assert (Hh : In (project attrs m)
                 (search_results (db w)
                    (filter_ge SYSDB_SSH_KNOWN_HOSTS_EXPIRE now)
                    SSH_HOSTS_SUBDIR attrs))
    by (apply search_results_In; now exists m).
  split; [|split].
  - destruct w as [h d t f em]. cbn [heap fault db] in *.
    destruct h as [|[|[|h]]]; try lia.
    apply Z.eqb_eq in Hf. cbn in Hf.
    run_goal. rewrite Hf.
    destruct (search_results d (filter_ge SYSDB_SSH_KNOWN_HOSTS_EXPIRE now)
                SSH_HOSTS_SUBDIR attrs) as [|h0 hs] eqn:R; [contradiction|].
    cbn. replace (h - 0)%nat with h by lia. reflexivity.
  - intros E. rewrite E in Hh. contradiction.
  - intros h. apply search_results_In.
Qed.

(** X6: when memory suffices, the search is served and some host entry is
    live at [now], [sysdb_get_ssh_known_hosts] returns [EOK] with a
    non-empty array and its length: the array holds, with the attributes
    asked for, every host entry that is live at [now] and nothing else. *)
Theorem sysdb_get_ssh_known_hosts_live now attrs w m :
  In m (db w) -> msg_subdir m = SSH_HOSTS_SUBDIR -> live now m = true ->
  (3 <= heap w)%nat ->
  fault w P_search_custom = EOK ->
  exists hosts,
    sysdb_get_ssh_known_hosts now attrs w =
    Done (EOK, Some (Some hosts, List.length hosts))
         (set_heap (heap w - 3) w)
         [ev_search_custom (filter_ge SYSDB_SSH_KNOWN_HOSTS_EXPIRE now)
            SSH_HOSTS_SUBDIR attrs EOK (List.length hosts)] /\
    hosts <> [] /\
    (forall h,
       In h hosts <->
       exists m', In m' (db w) /\ msg_subdir m' = SSH_HOSTS_SUBDIR /\
                  live now m' = true /\ h = project attrs m').
Proof. exact (sysdb_get_ssh_known_hosts_live_run now attrs w m). Qed.

Lemma sysdb_get_ssh_known_hosts_live_witness :
  let m := mk_msg SSH_HOSTS_SUBDIR "host1"
             [mk_el SYSDB_NAME ["host1"];
              mk_el SYSDB_SSH_KNOWN_HOSTS_EXPIRE ["1310"]] in
  let w := sysdb_init [m] in
  live 1300 m = true /\
  (3 <= heap w)%nat /\
  exists hosts,
    returned (sysdb_get_ssh_known_hosts 1300 None) w =
    Some (EOK, Some (Some hosts, List.length hosts)) /\
    In m hosts.
Proof.
  intros m w.
  assert (Hlive : live 1300 m = true) by reflexivity.
  assert (Hheap : (3 <= heap w)%nat) by (simpl; lia).
  split; [exact Hlive|]. split; [exact Hheap|].
  destruct (sysdb_get_ssh_known_hosts_live 1300 None w m
              (or_introl eq_refl) eq_refl Hlive Hheap eq_refl)
    as (hosts & Hrun & _ & Hall).
  exists hosts. split.
  - unfold returned. now rewrite Hrun.
  - apply Hall. exists m. repeat split. now left.
Defined.

(** ** Every run of the upsert, call by call *)

Lemma name_is_not_alias_attr : String.eqb SYSDB_NAME_ALIAS SYSDB_NAME = false.
Proof. reflexivity. Qed.

(** The name values of a bag an upsert has built. *)
Ltac name_values :=
  repeat first [ rewrite attr_values_attrs_put
               | rewrite attr_values_attrs_put_all
               | rewrite added_values_map_pair ];
  rewrite ?name_is_not_alias_attr;
  cbn; rewrite ?app_nil_r, <- ?app_assoc; reflexivity.

Ltac log_split H :=
  simpl in H;
  repeat (destruct H as [H|H]; [try discriminate H|]);
  try contradiction H.

Ltac pick_event :=
  match goal with
  | |- exists ev, In ev ?l /\ _ =>
      match l with
      | context [?e :: _] =>
          exists e; split; [simpl; auto 8|]; split;
          [discriminate | reflexivity]
      end
  end.

Lemma sysdb_store_ssh_host_trace name alias now attrs w r attrs' w' l :
  sysdb_store_ssh_host name alias now attrs w = Done (r, attrs') w' l ->
  In (map prim_of l) upsert_calls /\
  (forall n s bag e,
     In (ev_store_custom n s bag e) l ->
     n = name /\ s = SSH_HOSTS_SUBDIR /\ bag = attrs') /\
  (r = EOK <->
   In (ev_store_custom name SSH_HOSTS_SUBDIR attrs' EOK) l /\
   forall e, In (ev_transaction_commit e) l -> e = EOK) /\
  ((forall e, In (ev_transaction_cancel e) l -> e = EOK) ->
   txn w' = txn w) /\
  (forall ev,
     In ev l -> prim_of ev <> P_transaction_cancel -> ret_of ev <> EOK ->
     (prim_of ev = P_search_custom -> ret_of ev <> ENOENT) ->
     r = ret_of ev) /\
  (r <> EOK ->
   r = ENOMEM \/ r = EINVAL \/
   exists ev, In ev l /\ prim_of ev <> P_transaction_cancel /\ ret_of ev = r) /\
  (db w' = db w \/
   db w' = db_merge (db w) SSH_HOSTS_SUBDIR name attrs' /\
   In (ev_store_custom name SSH_HOSTS_SUBDIR attrs' EOK) l) /\
  (r = EOK -> db w' = db_merge (db w) SSH_HOSTS_SUBDIR name attrs') /\
  ((exists e, In (ev_store_custom name SSH_HOSTS_SUBDIR attrs' e) l) ->
   attr_values attrs' SYSDB_NAME = attr_values attrs SYSDB_NAME ++ [name]) /\
  fault w' = fault w /\ empty_is_enoent w' = empty_is_enoent w.
Proof.
  destruct w as [h d t f em]. intros H.
  destruct alias as [alias|]; explore H; finish H.
  all: split; [unfold upsert_calls; cbn [map prim_of In];
               repeat (first [left; reflexivity | right])|].
  all: split; [intros n s bag e Hin; log_split Hin;
               (inversion Hin; subst; auto)|].
  all: split;
    [split;
     [intros Hr; try discriminate Hr; try congruence;
      (split; [simpl; auto 6|intros e Hin; log_split Hin; congruence])
     |intros [Hst Hco];
      first [reflexivity
            | log_split Hst; try congruence; apply Hco; simpl; auto 8]]|].
  all: split;
    [intros Hc;
     first [reflexivity
           | exfalso;
             match goal with
             | E : _ P_transaction_cancel <> _ |- _ =>
                 apply E, Hc; simpl; auto 8
             end]|].
  all: split;
    [intros ev Hin Hp Hr Hs; log_split Hin; subst ev; cbn in Hp, Hr, Hs |- *;
     try (specialize (Hs eq_refl)); congruence|].
  all: split;
    [intros Hr;
     first [ left; reflexivity
           | right; left; reflexivity
           | right; right; pick_event
           | congruence ]|].
  all: split;
    [first [left; reflexivity
           | right; split; [reflexivity | simpl; auto 8]]|].
  all: split; [intros Hr; try discriminate Hr; try congruence; reflexivity|].
  all: split; [intros [e Hin]; log_split Hin; name_values|].
  all: split; reflexivity.
Qed.

(** X7: the store calls of [sysdb_store_ssh_host] are, in order, one of
    eight sequences.  So a run makes at most one search and at most one
    write, repeats no call and deletes nothing; it commits only after a
    write and cancels only a transaction it has started; and what it
    writes is the bag it hands back, under the host's key. *)
Theorem sysdb_store_ssh_host_calls name alias now attrs w r attrs' w' l :
  sysdb_store_ssh_host name alias now attrs w = Done (r, attrs') w' l ->
  In (map prim_of l) upsert_calls /\
  (forall n s bag e,
     In (ev_store_custom n s bag e) l ->
     n = name /\ s = SSH_HOSTS_SUBDIR /\ bag = attrs').
Proof.
  intros H. split; apply (sysdb_store_ssh_host_trace _ _ _ _ _ _ _ _ _ H).
Qed.

Lemma sysdb_store_ssh_host_calls_witness :
  let w := sysdb_faulty P_store_custom EIO [host1] in
  exists r attrs' w' l,
    sysdb_store_ssh_host "host1" (Some "h1-alt.example.com") 1010 [] w
    = Done (r, attrs') w' l /\
    map prim_of l =
    [P_transaction_start; P_search_custom; P_store_custom;
     P_transaction_cancel] /\
    In (map prim_of l) upsert_calls.
Proof.
  intros w. eexists _, _, _, _. split; [vm_compute; reflexivity|].
  split; [reflexivity|].
  eapply (sysdb_store_ssh_host_calls
            "host1" (Some "h1-alt.example.com") 1010 [] w).
  vm_compute. reflexivity.
Defined.

(** X8: [sysdb_store_ssh_host] returns [EOK] exactly when it has made its
    write, the write has succeeded, and no commit has failed; the entries
    are then those of before the call with the bag merged in under the
    host's key. *)
Theorem sysdb_store_ssh_host_success name alias now attrs w r attrs' w' l :
  sysdb_store_ssh_host name alias now attrs w = Done (r, attrs') w' l ->
  (r = EOK <->
   In (ev_store_custom name SSH_HOSTS_SUBDIR attrs' EOK) l /\
   forall e, In (ev_transaction_commit e) l -> e = EOK) /\
  (r = EOK -> db w' = db_merge (db w) SSH_HOSTS_SUBDIR name attrs').
Proof.
  intros H. split; apply (sysdb_store_ssh_host_trace _ _ _ _ _ _ _ _ _ H).
Qed.

Lemma sysdb_store_ssh_host_success_witness :
  let w := sysdb_init [] in
  exists attrs' w' l,
    sysdb_store_ssh_host "host1" None 1000 [] w = Done (EOK, attrs') w' l /\
    In (ev_store_custom "host1" SSH_HOSTS_SUBDIR attrs' EOK) l /\
    db w' = [mk_msg SSH_HOSTS_SUBDIR "host1" attrs'].
Proof.
  intros w. eexists _, _, _. split; [vm_compute; reflexivity|].
  destruct (sysdb_store_ssh_host_success "host1" None 1000 [] w EOK _ _ _
              eq_refl) as (Hiff & Hdb).
  split; [apply Hiff; reflexivity | exact (Hdb eq_refl)].
Defined.

(** X9: [sysdb_store_ssh_host] leaves no transaction of its own open: in
    every run in which no cancel fails, the open transactions after the
    call are those of before it. *)
Theorem sysdb_store_ssh_host_transaction_closed
    name alias now attrs w r attrs' w' l :
  sysdb_store_ssh_host name alias now attrs w = Done (r, attrs') w' l ->
  (forall e, In (ev_transaction_cancel e) l -> e = EOK) ->
  txn w' = txn w.
Proof.
  intros H. apply (sysdb_store_ssh_host_trace _ _ _ _ _ _ _ _ _ H).
Qed.

Lemma sysdb_store_ssh_host_transaction_closed_witness :
  let w := sysdb_faulty P_search_custom EIO [host1] in
  exists r attrs' w' l,
    sysdb_store_ssh_host "host1" (Some "h1-alt.example.com") 1010 [] w
    = Done (r, attrs') w' l /\
    (forall e, In (ev_transaction_cancel e) l -> e = EOK) /\
    In (ev_transaction_start EOK) l /\
    txn w' = txn w.
Proof.
  intros w. eexists _, _, _, _. split; [vm_compute; reflexivity|].
  assert (Hc : forall e,
             In (ev_transaction_cancel e)
                [ev_transaction_start EOK;
                 ev_search_custom (filter_eq SYSDB_NAME "host1")
                   SSH_HOSTS_SUBDIR (Some [SYSDB_NAME_ALIAS]) EIO 0;
                 ev_transaction_cancel EOK] -> e = EOK).
  { intros e Hin. log_split Hin. now injection Hin as <-. }
  split; [exact Hc|]. split; [now left|].
  eapply (sysdb_store_ssh_host_transaction_closed
            "host1" (Some "h1-alt.example.com") 1010 [] w).
  - vm_compute. reflexivity.
  - exact Hc.
Defined.

(** X10: where the error of [sysdb_store_ssh_host] comes from.  A store
    call that fails ends the run with its code, the cancel and a search
    answering [ENOENT] apart: the first is only logged, the second means a
    host without an entry.  And a run that returns an error returns
    [ENOMEM], [EINVAL], or the code of one of its store calls other than
    the cancel. *)
Theorem sysdb_store_ssh_host_error name alias now attrs w r attrs' w' l :
  sysdb_store_ssh_host name alias now attrs w = Done (r, attrs') w' l ->
  (forall ev,
     In ev l -> prim_of ev <> P_transaction_cancel -> ret_of ev <> EOK ->
     (prim_of ev = P_search_custom -> ret_of ev <> ENOENT) ->
     r = ret_of ev) /\
  (r <> EOK ->
   r = ENOMEM \/ r = EINVAL \/
   exists ev,
     In ev l /\ prim_of ev <> P_transaction_cancel /\ ret_of ev = r).
Proof.
  intros H. split; apply (sysdb_store_ssh_host_trace _ _ _ _ _ _ _ _ _ H).
Qed.

Lemma sysdb_store_ssh_host_error_witness :
  let w := sysdb_faulty P_transaction_start EIO [host1] in
  exists r attrs' w' l,
    sysdb_store_ssh_host "host1" (Some "h1-alt.example.com") 1010 [] w
    = Done (r, attrs') w' l /\
    l = [ev_transaction_start EIO] /\ r = EIO.
Proof.
  intros w. eexists _, _, _, _. split; [vm_compute; reflexivity|].
  split; [reflexivity|].
  destruct (sysdb_store_ssh_host_error
              "host1" (Some "h1-alt.example.com") 1010 [] w EIO _ _ _
              eq_refl) as (Hpass & _).
  apply (Hpass (ev_transaction_start EIO)); simpl; auto; discriminate.
Defined.

(** X11: [sysdb_store_ssh_host] inherits the read of [hosts[0]] from
    [sysdb_get_ssh_host]: it is undefined exactly when it has an alias, has
    got to the lookup, and the search has returned [EOK] without a
    result. *)
Theorem sysdb_store_ssh_host_undefined name alias now attrs w :
  sysdb_store_ssh_host name alias now attrs w = Undefined <->
  alias <> None /\ (6 <= heap w)%nat /\
  fault w P_transaction_start = EOK /\ fault w P_search_custom = EOK /\
  empty_is_enoent w = false /\
  search_results (db w) (filter_eq SYSDB_NAME name) SSH_HOSTS_SUBDIR
    (Some [SYSDB_NAME_ALIAS]) = [].
Proof.
  destruct w as [h d t f em]. split.
  - intros H. destruct alias as [alias|];
      explore H; try discriminate H; tidy.
    simpl. repeat split; auto; try discriminate. lia.
  - cbn [heap fault empty_is_enoent db].
    intros (Ha & Hh & Hst & Hse & -> & Hres).
    destruct alias as [alias|]; [|congruence].
    destruct h as [|[|[|[|[|[|h]]]]]]; try lia.
    apply Z.eqb_eq in Hst, Hse. cbn in Hst, Hse.
    run_goal. rewrite Hst. run_goal. rewrite Hse, Hres. reflexivity.
Qed.

Lemma sysdb_store_ssh_host_undefined_witness :
  sysdb_store_ssh_host "host1" (Some "h1.example.com") 1000 []
    (mk_world 1000 [] [] no_fault false) = Undefined.
Proof.
  apply (proj2 (sysdb_store_ssh_host_undefined
                  "host1" (Some "h1.example.com") 1000 []
                  (mk_world 1000 [] [] no_fault false))).
  repeat split; try reflexivity; [discriminate | simpl; lia].
Defined.

(** ** The store an upsert builds *)

Lemma is_entry_key subdir name m :
  is_entry subdir name m = true <-> entry_key m = (subdir, name).
Proof.
  unfold is_entry, entry_key. rewrite andb_true_iff, !String.eqb_eq.
  split; [intros [-> ->]; reflexivity | intros [= -> ->]; auto].
Qed.

Lemma In_db_merge d subdir name attrs m :
  In m (db_merge d subdir name attrs) ->
  In m d \/
  m = mk_msg subdir name
        (merge_elements
           (match find_entry d subdir name with
            | Some old => msg_elements old
            | None => []
            end) attrs).
Proof.
  unfold find_entry.
  induction d as [|m0 rest IH]; simpl.
  - intros [<-|[]]. now right.
  - destruct (is_entry subdir name m0) eqn:E; simpl.
    + intros [<-|Hin]; [now right | left; now right].
    + intros [<-|Hin]; [left; now left|].
      destruct (IH Hin) as [H|H]; [left; now right | now right].
Qed.

Lemma keys_db_merge d subdir name attrs :
  map entry_key (db_merge d subdir name attrs) =
  if existsb (is_entry subdir name) d
  then map entry_key d
  else map entry_key d ++ [(subdir, name)].
Proof.
  induction d as [|m rest IH]; simpl; [reflexivity|].
  destruct (is_entry subdir name m) eqn:E; simpl.
  - f_equal. apply is_entry_key in E. now rewrite E.
  - rewrite IH. now destruct (existsb (is_entry subdir name) rest).
Qed.

Lemma keys_unique_db_merge d subdir name attrs :
  keys_unique d -> keys_unique (db_merge d subdir name attrs).
Proof.
  unfold keys_unique. intros Hd. rewrite keys_db_merge.
  destruct (existsb (is_entry subdir name) d) eqn:E; [exact Hd|].
  apply NoDup_app; [exact Hd | repeat constructor; intros [] |].
  intros k Hk [<-|[]].
  apply in_map_iff in Hk as (m & Hkey & Hin).
  assert (existsb (is_entry subdir name) d = true)
    by (apply existsb_exists; exists m; split; auto;
        now apply is_entry_key).
  congruence.
Qed.

Lemma hosts_named_db_merge d name attrs :
  hosts_named d ->
  find_element attrs SYSDB_NAME <> None ->
  attr_values attrs SYSDB_NAME = [name] ->
  hosts_named (db_merge d SSH_HOSTS_SUBDIR name attrs).
Proof.
  intros Hd Hsome Hval m Hin Hs.
  apply In_db_merge in Hin as [Hin| ->]; [now apply Hd|].
  cbn [msg_elements msg_name]. rewrite attr_values_merge_elements.
  unfold attr_values in Hval.
  destruct (find_element attrs SYSDB_NAME); [exact Hval | congruence].
Qed.

(** In a store whose host entries carry their keys as names, the lookup
    by name finds the entries under the key. *)
Lemma lookup_host_by_key w name :
  hosts_named (db w) ->
  lookup_host w name = filter (is_entry SSH_HOSTS_SUBDIR name) (db w).
Proof.
  unfold lookup_host. intros Hn. apply filter_ext_in. intros m Hin.
  unfold in_subdir, is_entry.
  destruct (String.eqb_spec (msg_subdir m) SSH_HOSTS_SUBDIR) as [E|E];
    [|reflexivity].
  cbn [andb filter_matches]. rewrite (Hn m Hin E). cbn [existsb].
  rewrite orb_false_r. apply String.eqb_sym.
Qed.

Lemma filter_is_entry_unique d subdir name :
  keys_unique d ->
  filter (is_entry subdir name) d =
  match find_entry d subdir name with
  | Some m => [m]
  | None => []
  end.
Proof.
  unfold keys_unique, find_entry.
  induction d as [|m rest IH]; simpl; [reflexivity|].
  intros Hd. inversion Hd as [|k ks Hk Hrest]; subst.
  destruct (is_entry subdir name m) eqn:E.
  - f_equal.
    replace (filter (is_entry subdir name) rest) with (@nil ldb_message);
      [reflexivity|].
    symmetry.
    destruct (filter (is_entry subdir name) rest) as [|m' ms] eqn:F;
      [reflexivity|].
    exfalso. apply Hk.
    assert (Hin : In m' (filter (is_entry subdir name) rest))
      by (rewrite F; now left).
    apply filter_In in Hin as (Hin & E').
    apply is_entry_key in E, E'. rewrite E, <- E'.
    now apply in_map.
  - now apply IH.
Qed.

Lemma lookup_host_consistent w name :
  consistent (db w) ->
  lookup_host w name =
  match find_entry (db w) SSH_HOSTS_SUBDIR name with
  | Some m => [m]
  | None => []
  end.
Proof.
  intros [Hn Hk]. rewrite lookup_host_by_key by exact Hn.
  now apply filter_is_entry_unique.
Qed.

Lemma sysdb_store_ssh_host_consistent name alias now attrs w r attrs' w' l :
  sysdb_store_ssh_host name alias now attrs w = Done (r, attrs') w' l ->
  consistent (db w) ->
  find_element attrs SYSDB_NAME = None ->
  consistent (db w').
Proof.
  intros H Hc Hbag.
  destruct (sysdb_store_ssh_host_trace _ _ _ _ _ _ _ _ _ H)
    as (_ & _ & _ & _ & _ & _ & Hdb & _ & Hname & _).
  destruct Hdb as [-> | [-> Hst]]; [exact Hc|].
  assert (Hval : attr_values attrs' SYSDB_NAME = [name]).
  { rewrite Hname by eauto. unfold attr_values. now rewrite Hbag. }
  destruct Hc as [Hn Hk]. split.
  - apply hosts_named_db_merge; auto.
    unfold attr_values in Hval.
    destruct (find_element attrs' SYSDB_NAME); [discriminate|].
    discriminate Hval.
  - now apply keys_unique_db_merge.
Qed.

(** X12: an upsert keeps the store consistent.  When the host entries
    carry their keys as their names and no key has two entries, and the
    caller's bag holds no name element of its own, the same is true after
    [sysdb_store_ssh_host], failed or not; and in such a store the lookup
    by name finds one entry at most, so that the more-than-one-host error
    cannot arise. *)
Theorem sysdb_store_ssh_host_keeps_consistent
    name alias now attrs w r attrs' w' l :
  sysdb_store_ssh_host name alias now attrs w = Done (r, attrs') w' l ->
  consistent (db w) ->
  find_element attrs SYSDB_NAME = None ->
  consistent (db w') /\
  forall name', (List.length (lookup_host w' name') <= 1)%nat.
Proof.
  intros H Hc Hbag.
  assert (Hc' : consistent (db w'))
    by exact (sysdb_store_ssh_host_consistent _ _ _ _ _ _ _ _ _ H Hc Hbag).
  split; [exact Hc'|].
  intros name'. rewrite lookup_host_consistent by exact Hc'.
  destruct (find_entry (db w') SSH_HOSTS_SUBDIR name'); simpl; lia.
Qed.

Lemma sysdb_store_ssh_host_keeps_consistent_witness :
  let w := sysdb_init [host1] in
  exists attrs' w' l,
    sysdb_store_ssh_host "host2" (Some "h2.example.com") 1010 [] w
    = Done (EOK, attrs') w' l /\
    consistent (db w) /\
    consistent (db w') /\
    (List.length (lookup_host w' "host2") <= 1)%nat.
Proof.
  intros w.
  assert (Hc : consistent (db w)).
  { split.
    - intros m [<-|[]] _. reflexivity.
    - repeat constructor. intros []. }
  eexists _, _, _. split; [vm_compute; reflexivity|].
  split; [exact Hc|].
  destruct (sysdb_store_ssh_host_keeps_consistent
              "host2" (Some "h2.example.com") 1010 [] w EOK _ _ _
              eq_refl Hc eq_refl) as (Hc' & Hone).
  split; [exact Hc' | apply Hone].
Defined.

(** ** One call after another *)

(** X13: a lookup after an upsert returns what the upsert left.  In a
    consistent store, after [sysdb_store_ssh_host] has returned [EOK] on
    a bag without a name element of its own, [sysdb_get_ssh_host] for the
    same name returns [EOK] and hands out the entry under the host's key,
    in which every attribute of the bag has the bag's values and every
    other attribute the values it had before. *)
Theorem sysdb_get_ssh_host_after_store
    name alias now attrs search_attrs w attrs' w' l :
  sysdb_store_ssh_host name alias now attrs w = Done (EOK, attrs') w' l ->
  consistent (db w) ->
  find_element attrs SYSDB_NAME = None ->
  (3 <= heap w')%nat ->
  fault w P_search_custom = EOK ->
  exists m,
    find_entry (db w') SSH_HOSTS_SUBDIR name = Some m /\
    sysdb_get_ssh_host name search_attrs w' =
    Done (EOK, Some (project search_attrs m)) (set_heap (heap w' - 3) w')
         [ev_search_custom (filter_eq SYSDB_NAME name) SSH_HOSTS_SUBDIR
            search_attrs EOK 1] /\
    forall attr,
      attr_values (msg_elements m) attr =
      match find_element attrs' attr with
      | Some el => el_values el
      | None => entry_values (db w) SSH_HOSTS_SUBDIR name attr
      end.
Proof.
  intros H Hc Hbag Hheap Hf.
  pose proof (sysdb_store_ssh_host_consistent _ _ _ _ _ _ _ _ _ H Hc Hbag)
    as Hc'.
  destruct (sysdb_store_ssh_host_trace _ _ _ _ _ _ _ _ _ H)
    as (_ & _ & _ & _ & _ & _ & _ & Hdb & _ & Hfault & _).
  specialize (Hdb eq_refl).
  assert (Hentry : find_entry (db w') SSH_HOSTS_SUBDIR name <> None)
    by (rewrite Hdb, find_entry_db_merge; discriminate).
  destruct (find_entry (db w') SSH_HOSTS_SUBDIR name) as [m|] eqn:E;
    [|congruence].
  exists m. split; [reflexivity|]. split.
  - apply sysdb_get_ssh_host_found_run; auto.
    + rewrite lookup_host_consistent by exact Hc'. now rewrite E.
    + congruence.
  - intros attr.
    pose proof (entry_values_db_merge (db w) SSH_HOSTS_SUBDIR name attrs'
                  attr) as Hv.
    rewrite <- Hdb in Hv. unfold entry_values at 1 in Hv.
    now rewrite E in Hv.
Qed.

Lemma sysdb_get_ssh_host_after_store_witness :
  let w := sysdb_init [host1] in
  let store :=
    sysdb_store_ssh_host "host1" (Some "h1-alt.example.com") 1010 [] in
  let w' := world_after store w in
  consistent (db w) /\
  returned store w =
  Some (EOK, attrs_put_all []
               (additions "host1" (Some "h1-alt.example.com")
                  ["h1.example.com"] 1010)) /\
  exists m,
    returned (sysdb_get_ssh_host "host1" None) w' = Some (EOK, Some m) /\
    attr_values (msg_elements m) SYSDB_NAME_ALIAS
    = ["h1.example.com"; "h1-alt.example.com"] /\
    attr_values (msg_elements m) "region" = ["us"].
Proof.
  intros w store w'.
  assert (Hc : consistent (db w)).
  { split.
    - intros m [<-|[]] _. reflexivity.
    - repeat constructor. intros []. }
  split; [exact Hc|]. split; [vm_compute; reflexivity|].
  destruct (sysdb_get_ssh_host_after_store
              "host1" (Some "h1-alt.example.com") 1010 [] None w
              (attrs_put_all []
                 (additions "host1" (Some "h1-alt.example.com")
                    ["h1.example.com"] 1010))
              w' _ eq_refl Hc eq_refl)
    as (m & _ & Hget & Hvals); [vm_compute; lia | reflexivity |].
  exists m.
  split; [unfold returned; now rewrite Hget|].
  split; rewrite Hvals; reflexivity.
Defined.

(** X14: a second upsert of the same alias changes no alias.  In a
    consistent store, when two calls of [sysdb_store_ssh_host] for one
    host with one alias, on bags without name and alias elements of their
    own, both return [EOK], the host's aliases after the second call are
    those after the first.  Among them is a value that [strcmp] finds
    equal to the alias: the alias itself when none was there before the
    first call. *)
Theorem sysdb_store_ssh_host_twice
    name alias now1 now2 bag1 bag2 w bag1' w1 l1 bag2' w2 l2 :
  sysdb_store_ssh_host name (Some alias) now1 bag1 w
  = Done (EOK, bag1') w1 l1 ->
  sysdb_store_ssh_host name (Some alias) now2 bag2 w1
  = Done (EOK, bag2') w2 l2 ->
  consistent (db w) ->
  fault w P_search_custom = EOK ->
  find_element bag1 SYSDB_NAME = None ->
  find_element bag1 SYSDB_NAME_ALIAS = None ->
  find_element bag2 SYSDB_NAME_ALIAS = None ->
  alias_present alias
    (entry_values (db w1) SSH_HOSTS_SUBDIR name SYSDB_NAME_ALIAS) /\
  (~ alias_present alias (existing_aliases w name) ->
   In alias (entry_values (db w1) SSH_HOSTS_SUBDIR name SYSDB_NAME_ALIAS)) /\
  entry_values (db w2) SSH_HOSTS_SUBDIR name SYSDB_NAME_ALIAS =
  entry_values (db w1) SSH_HOSTS_SUBDIR name SYSDB_NAME_ALIAS.
Proof.
  intros H1 H2 Hc Hf Hn1 Ha1 Ha2.
  pose proof (sysdb_store_ssh_host_consistent _ _ _ _ _ _ _ _ _ H1 Hc Hn1)
    as Hc1.
  destruct (sysdb_store_ssh_host_trace _ _ _ _ _ _ _ _ _ H1)
    as (_ & _ & _ & _ & _ & _ & _ & _ & _ & Hfault & _).
  assert (Hf1 : fault w1 P_search_custom = EOK) by congruence.
  destruct (sysdb_store_ssh_host_stored _ _ _ _ _ _ _ _ H1 Hf)
    as (Hentry1 & Hal1 & _).
  destruct (sysdb_store_ssh_host_stored _ _ _ _ _ _ _ _ H2 Hf1)
    as (_ & Hal2 & _).
  unfold attr_values in Hal1 at 1. rewrite Ha1 in Hal1. cbn [app] in Hal1.
  unfold attr_values in Hal2 at 1. rewrite Ha2 in Hal2. cbn [app] in Hal2.
  assert (Hex : existing_aliases w1 name =
                entry_values (db w1) SSH_HOSTS_SUBDIR name SYSDB_NAME_ALIAS).
  { unfold existing_aliases, entry_values.
    rewrite lookup_host_consistent by exact Hc1.
    now destruct (find_entry (db w1) SSH_HOSTS_SUBDIR name). }
  assert (Hnew : ~ alias_present alias (existing_aliases w name) ->
                 In alias (entry_values (db w1) SSH_HOSTS_SUBDIR name
                             SYSDB_NAME_ALIAS)).
  { intros Hp. apply has_alias_false in Hp.
    rewrite Hal1, Hp. apply in_or_app. right. now left. }
  assert (Hthere : alias_present alias
                     (entry_values (db w1) SSH_HOSTS_SUBDIR name
                        SYSDB_NAME_ALIAS)).
  { destruct (has_alias alias (existing_aliases w name)) eqn:E.
    - apply has_alias_spec in E. destruct E as (v & Hin & Hv).
      exists v. split; [|exact Hv].
      rewrite Hal1. apply in_or_app. now left.
    - apply In_alias_present, Hnew. now apply has_alias_false. }
  split; [exact Hthere|]. split; [exact Hnew|].
  rewrite Hal2, Hex.
  apply has_alias_spec in Hthere. rewrite Hthere. apply app_nil_r.
Qed.

Lemma sysdb_store_ssh_host_twice_witness :
  let w := sysdb_init [] in
  let w1 := world_after
              (sysdb_store_ssh_host "host1" (Some "h1.example.com") 1000 [])
              w in
  let w2 := world_after
              (sysdb_store_ssh_host "host1" (Some "h1.example.com") 1010 [])
              w1 in
  consistent (db w) /\
  returned (sysdb_store_ssh_host "host1" (Some "h1.example.com") 1000 []) w
  = Some (EOK, attrs_put_all []
                 (additions "host1" (Some "h1.example.com") [] 1000)) /\
  entry_values (db w2) SSH_HOSTS_SUBDIR "host1" SYSDB_NAME_ALIAS =
  entry_values (db w1) SSH_HOSTS_SUBDIR "host1" SYSDB_NAME_ALIAS.
Proof.
  intros w w1 w2.
  assert (Hc : consistent (db w)) by (split; [intros m []|constructor]).
  split; [exact Hc|]. split; [vm_compute; reflexivity|].
  eapply (sysdb_store_ssh_host_twice
            "host1" "h1.example.com" 1000 1010 [] [] w _ w1 _ _ w2 _).
  - vm_compute. reflexivity.
  - vm_compute. reflexivity.
  - exact Hc.
  - reflexivity.
  - reflexivity.
  - reflexivity.
  - reflexivity.
Defined.

(** ** Deleting a host *)

Lemma filter_after_removal {A} (p : A -> bool) (d : list A) :
  filter p (filter (fun m => negb (p m)) d) = [].
Proof.
  induction d as [|m rest IH]; simpl; [reflexivity|].
  destruct (p m) eqn:E; simpl; [exact IH|]. now rewrite E.
Qed.

Lemma filter_other_key subdir name name' (d : list ldb_message) :
  name' <> name ->
  filter (is_entry subdir name')
         (filter (fun m => negb (is_entry subdir name m)) d) =
  filter (is_entry subdir name') d.
Proof.
  intros Hne. induction d as [|m rest IH]; simpl; [reflexivity|].
  destruct (is_entry subdir name m) eqn:E; simpl.
  - rewrite (is_entry_other subdir name subdir name' m); auto.
  - now rewrite IH.
Qed.

Lemma hosts_named_filter p d : hosts_named d -> hosts_named (filter p d).
Proof.
  intros Hd m Hin. apply filter_In in Hin as [Hin _]. now apply Hd.
Qed.

(** X15: a host that has been deleted is not found.  In a store whose host
    entries carry their keys as names, after [sysdb_delete_ssh_host] has
    returned [EOK], [sysdb_get_ssh_host] for the same name makes one
    search and returns [ENOENT] without writing [*host], and the lookup
    of every other name finds what it found before. *)
Theorem sysdb_get_ssh_host_after_delete name attrs w w' l :
  sysdb_delete_ssh_host name w = Done EOK w' l ->
  hosts_named (db w) ->
  empty_is_enoent w = true ->
  (3 <= heap w)%nat ->
  fault w P_search_custom = EOK ->
  l = [ev_delete_custom name SSH_HOSTS_SUBDIR EOK] /\
  sysdb_get_ssh_host name attrs w' =
  Done (ENOENT, None) (set_heap (heap w' - 3) w')
       [ev_search_custom (filter_eq SYSDB_NAME name) SSH_HOSTS_SUBDIR
          attrs ENOENT 0] /\
  (forall name', name' <> name -> lookup_host w' name' = lookup_host w name').
Proof.
  intros H Hn Hem Hheap Hf.
  unfold sysdb_delete_ssh_host, sysdb_delete_custom in H.
  destruct (fault w P_delete_custom =? EOK) eqn:Hd.
  - destruct (existsb (is_entry SSH_HOSTS_SUBDIR name) (db w));
      [|discriminate H].
    injection H as <- <-.
    assert (Hn' : hosts_named
                    (db (set_db
                           (filter
                              (fun m => negb (is_entry SSH_HOSTS_SUBDIR name m))
                              (db w)) w)))
      by (destruct w; apply hosts_named_filter; exact Hn).
    split; [reflexivity|]. split.
    + apply sysdb_get_ssh_host_missing_run;
        try (destruct w; assumption).
      rewrite lookup_host_by_key by exact Hn'.
      destruct w. apply filter_after_removal.
    + intros name' Hne.
      rewrite !lookup_host_by_key by assumption.
      destruct w. now apply filter_other_key.
  - injection H as E _ _. apply Z.eqb_neq in Hd. congruence.
Qed.

Lemma sysdb_get_ssh_host_after_delete_witness :
  let w := sysdb_init [host1] in
  let w' := world_after (sysdb_delete_ssh_host "host1") w in
  hosts_named (db w) /\
  returned (sysdb_delete_ssh_host "host1") w = Some EOK /\
  returned (sysdb_get_ssh_host "host1" None) w' = Some (ENOENT, None).
Proof.
  intros w w'.
  assert (Hn : hosts_named (db w)) by (intros m [<-|[]] _; reflexivity).
  split; [exact Hn|]. split; [reflexivity|].
  destruct (sysdb_get_ssh_host_after_delete "host1" None w w' _ eq_refl Hn
              eq_refl) as (_ & Hget & _);
    [vm_compute; lia | reflexivity |].
  unfold returned. now rewrite Hget.
Defined.

(** ** The expiry time *)

(** What a run of [sysdb_update_ssh_known_host_expire] that returns [EOK]
    has done. *)
Lemma sysdb_update_ssh_known_host_expire_written name now timeout w w' l :
  sysdb_update_ssh_known_host_expire name now timeout w = Done EOK w' l ->
  db w' = db_merge (db w) SSH_HOSTS_SUBDIR name
            [mk_el SYSDB_SSH_KNOWN_HOSTS_EXPIRE [time_val (now + timeout)]] /\
  fault w' = fault w /\ empty_is_enoent w' = empty_is_enoent w /\
  txn w' = txn w.
Proof.
  destruct w as [h d t f em]. intros H.
  explore H; finish H; try congruence; repeat split.
Qed.

Lemma find_entry_unique d subdir name m :
  keys_unique d -> In m d -> is_entry subdir name m = true ->
  find_entry d subdir name = Some m.
Proof.
  intros Hk Hin He.
  assert (Hf : In m (filter (is_entry subdir name) d))
    by (apply filter_In; auto).
  rewrite filter_is_entry_unique in Hf by exact Hk.
  destruct (find_entry d subdir name) as [m0|].
  - destruct Hf as [->|[]]. reflexivity.
  - destruct Hf.
Qed.

(** The array a search for live hosts has handed out. *)
Lemma sysdb_get_ssh_known_hosts_array now attrs w r hosts n w' l :
  sysdb_get_ssh_known_hosts now attrs w
  = Done (r, Some (Some hosts, n)) w' l ->
  hosts = search_results (db w) (filter_ge SYSDB_SSH_KNOWN_HOSTS_EXPIRE now)
            SSH_HOSTS_SUBDIR attrs.
Proof.
  destruct w as [h d t f em]. intros H.
  explore H; finish H; try congruence; cbn [db];
    repeat match goal with
           | E : search_results _ _ _ _ = _ |- _ => rewrite E
           end; reflexivity.
Qed.

(** X16: the window an expiry time opens.  After
    [sysdb_update_ssh_known_host_expire] has returned [EOK], the host's
    entry is live at the times up to [now + known_hosts_timeout] and at
    no later one.  So [sysdb_get_ssh_known_hosts] at a time within the
    window returns [EOK] with the host among the entries it hands out,
    and, the keys of the store being unique, an array handed out for a
    later time holds no entry of that name. *)
Theorem sysdb_get_ssh_known_hosts_after_expire
    name now timeout attrs w w' l :
  sysdb_update_ssh_known_host_expire name now timeout w = Done EOK w' l ->
  keys_unique (db w) ->
  (3 <= heap w')%nat ->
  fault w P_search_custom = EOK ->
  exists m,
    find_entry (db w') SSH_HOSTS_SUBDIR name = Some m /\
    (forall t, live t m = (t <=? now + timeout)) /\
    (forall t, t <= now + timeout ->
       exists hosts,
         sysdb_get_ssh_known_hosts t attrs w' =
         Done (EOK, Some (Some hosts, List.length hosts))
              (set_heap (heap w' - 3) w')
              [ev_search_custom (filter_ge SYSDB_SSH_KNOWN_HOSTS_EXPIRE t)
                 SSH_HOSTS_SUBDIR attrs EOK (List.length hosts)] /\
         In (project attrs m) hosts) /\
    (forall t r hosts n w'' l',
       now + timeout < t ->
       sysdb_get_ssh_known_hosts t attrs w'
       = Done (r, Some (Some hosts, n)) w'' l' ->
       forall h, In h hosts -> msg_name h <> name).
Proof.
  intros H Hk Hheap Hf.
  destruct (sysdb_update_ssh_known_host_expire_written _ _ _ _ _ _ H)
    as (Hdb & Hfault & _ & _).
  assert (Hk' : keys_unique (db w'))
    by (rewrite Hdb; now apply keys_unique_db_merge).
  pose proof (find_entry_db_merge (db w) SSH_HOSTS_SUBDIR name
                [mk_el SYSDB_SSH_KNOWN_HOSTS_EXPIRE
                   [time_val (now + timeout)]]) as Hm.
  rewrite <- Hdb in Hm.
  match type of Hm with _ = Some ?x => set (m := x) in * end.
  assert (Hlive : forall t, live t m = (t <=? now + timeout)).
  { intros t. unfold live, filter_matches, m. cbn [msg_elements].
    rewrite attr_values_merge_elements.
    cbn [find_element el_name el_values].
    rewrite String.eqb_refl. cbn [existsb el_values].
    unfold val_ge. rewrite val_time_time_val. apply orb_false_r. }
  exists m. split; [exact Hm|]. split; [exact Hlive|]. split.
  - intros t Ht.
    destruct (sysdb_get_ssh_known_hosts_live_run t attrs w' m)
      as (hosts & Hrun & _ & Hall); auto.
    + unfold find_entry in Hm. now apply find_some in Hm.
    + rewrite Hlive. now apply Z.leb_le.
    + congruence.
    + exists hosts. split; [exact Hrun|].
      apply Hall. exists m. repeat split.
      * unfold find_entry in Hm. now apply find_some in Hm.
      * rewrite Hlive. now apply Z.leb_le.
  - intros t r hosts n w'' l' Ht Hrun h Hin Hname.
    apply sysdb_get_ssh_known_hosts_array in Hrun. subst hosts.
    apply search_results_In in Hin as (m' & Hin & Hs & Hmatch & ->).
    assert (Hsame : find_entry (db w') SSH_HOSTS_SUBDIR name = Some m').
    { apply find_entry_unique; auto.
      unfold is_entry. rewrite Hs, String.eqb_refl.
      replace (msg_name m') with name
        by (rewrite <- Hname; now destruct attrs).
      now rewrite String.eqb_refl. }
    assert (m' = m) by congruence. subst m'.
    change (live t m = true) in Hmatch. rewrite Hlive in Hmatch.
    apply Z.leb_le in Hmatch. lia.
Qed.

Lemma sysdb_get_ssh_known_hosts_after_expire_witness :
  let w := sysdb_init [host1] in
  let bump := sysdb_update_ssh_known_host_expire "host1" 1010 300 in
  let w' := world_after bump w in
  keys_unique (db w) /\
  returned bump w = Some EOK /\
  (exists hosts m,
     returned (sysdb_get_ssh_known_hosts 1300 None) w'
     = Some (EOK, Some (Some hosts, List.length hosts)) /\
     In m hosts /\ msg_name m = "host1") /\
  returned (sysdb_get_ssh_known_hosts 1400 None) w'
  = Some (ENOENT, Some (None, 0%nat)).
Proof.
  intros w bump w'.
  assert (Hk : keys_unique (db w)) by (repeat constructor; intros []).
  split; [exact Hk|]. split; [reflexivity|].
  destruct (sysdb_get_ssh_known_hosts_after_expire
              "host1" 1010 300 None w w' _ eq_refl Hk)
    as (m & Hm & _ & Hin & _); [vm_compute; lia | reflexivity |].
  split; [|reflexivity].
  destruct (Hin 1300) as (hosts & Hrun & Hh); [lia|].
  exists hosts, m. split; [unfold returned; now rewrite Hrun|].
  split; [exact Hh|].
  vm_compute in Hm. now injection Hm as <-.
Defined.

(** X17: the addition in [sysdb_update_ssh_known_host_expire].  The sum
    [now + known_hosts_timeout] is computed once the temporary context
    and the bag are allocated, so a run has no defined result exactly
    when that sum is no [time_t] and memory suffices for the two
    allocations. *)
Theorem sysdb_update_ssh_known_host_expire_undefined name now timeout w :
  sysdb_update_ssh_known_host_expire name now timeout w = Undefined <->
  time_t_range (now + timeout) = false /\ (2 <= heap w)%nat.
Proof.
  destruct w as [h d t f em]. split.
  - intros H. explore H; try discriminate H.
    all: split; [first [assumption | reflexivity] | simpl; lia].
  - intros [Hr Hh]. cbn [heap] in Hh.
    destruct h as [|[|h]]; try lia.
    unfold_code. cbn -[time_t_range Z.add time_val]. rewrite Hr.
    reflexivity.
Qed.

Lemma sysdb_update_ssh_known_host_expire_undefined_witness :
  sysdb_update_ssh_known_host_expire "host1" 9223372036854775807 1
    (sysdb_init [host1]) = Undefined.
Proof.
  apply (proj2 (sysdb_update_ssh_known_host_expire_undefined
                  "host1" 9223372036854775807 1 (sysdb_init [host1]))).
  split; [reflexivity | simpl; lia].
Defined.

(** X18: how [sysdb_update_ssh_known_host_expire] ends.  A run returns
    [EOK] after a merge write of the expiry time that the store has
    accepted, [ENOMEM] without a store call, or the code with which the
    store has refused the write; in the last two cases the entries are
    those of before.  No run changes the open transactions. *)
Theorem sysdb_update_ssh_known_host_expire_result
    name now timeout w r w' l :
  sysdb_update_ssh_known_host_expire name now timeout w = Done r w' l ->
  let written :=
    [mk_el SYSDB_SSH_KNOWN_HOSTS_EXPIRE [time_val (now + timeout)]] in
  (r = EOK /\ fault w P_store_custom = EOK /\
   l = [ev_store_custom name SSH_HOSTS_SUBDIR written EOK] /\
   db w' = db_merge (db w) SSH_HOSTS_SUBDIR name written
   \/ r = ENOMEM /\ l = [] /\ db w' = db w
   \/ r <> EOK /\ r = fault w P_store_custom /\
      l = [ev_store_custom name SSH_HOSTS_SUBDIR written r] /\
      db w' = db w) /\
  txn w' = txn w /\ fault w' = fault w.
Proof.
  destruct w as [h d t f em]. intros H written.
  explore H; finish H; (split; [|split; reflexivity]).
  all: try (right; left; repeat split; reflexivity).
  - left. cbn [fault]. repeat split; auto.
  - right; right. cbn [fault]. repeat split; auto.
Qed.

Lemma sysdb_update_ssh_known_host_expire_result_witness :
  let w := sysdb_faulty P_store_custom EIO [host1] in
  exists w' l,
    sysdb_update_ssh_known_host_expire "host1" 1010 300 w = Done EIO w' l /\
    db w' = db w.
Proof.
  intros w. eexists _, _. split; [vm_compute; reflexivity|].
  destruct (sysdb_update_ssh_known_host_expire_result
              "host1" 1010 300 w EIO _ _ eq_refl)
    as ([(E & _)|[(E & _)|(_ & _ & _ & Hdb)]] & _);
    [discriminate E | discriminate E | exact Hdb].
Defined.

(** ** Aliases at the edges *)

(** X19: the test for a new alias looks at the stored entry alone.  When
    the caller's bag lists the alias already and [strcmp] finds it in no
    alias of the entry, a run of [sysdb_store_ssh_host] that returns
    [EOK] has stored the bag's aliases, then the entry's, then the alias
    once more: the alias is stored twice. *)
Theorem sysdb_store_ssh_host_alias_in_bag
    name alias now attrs w attrs' w' l :
  sysdb_store_ssh_host name (Some alias) now attrs w
  = Done (EOK, attrs') w' l ->
  fault w P_search_custom = EOK ->
  In alias (attr_values attrs SYSDB_NAME_ALIAS) ->
  ~ alias_present alias (existing_aliases w name) ->
  entry_values (db w') SSH_HOSTS_SUBDIR name SYSDB_NAME_ALIAS =
  attr_values attrs SYSDB_NAME_ALIAS ++ existing_aliases w name ++ [alias] /\
  ~ NoDup (entry_values (db w') SSH_HOSTS_SUBDIR name SYSDB_NAME_ALIAS).
Proof.
  intros H Hf Hbag Hnew.
  destruct (sysdb_store_ssh_host_stored _ _ _ _ _ _ _ _ H Hf)
    as (_ & Hal & _).
  apply has_alias_false in Hnew. rewrite Hnew in Hal.
  split; [exact Hal|].
  rewrite Hal. intros Hnd.
  apply in_split in Hbag as (l1 & l2 & Hbag). rewrite Hbag in Hnd.
  rewrite <- app_assoc in Hnd. apply NoDup_remove_2 in Hnd.
  apply Hnd. rewrite !in_app_iff. right. right. right. now left.
Qed.

Lemma sysdb_store_ssh_host_alias_in_bag_witness :
  let w := sysdb_init [] in
  let bag := [mk_el SYSDB_NAME_ALIAS ["h1.example.com"]] in
  exists attrs' w' l,
    sysdb_store_ssh_host "host1" (Some "h1.example.com") 1000 bag w
    = Done (EOK, attrs') w' l /\
    entry_values (db w') SSH_HOSTS_SUBDIR "host1" SYSDB_NAME_ALIAS =
    ["h1.example.com"; "h1.example.com"].
Proof.
  intros w bag. eexists _, _, _. split; [vm_compute; reflexivity|].
  apply (sysdb_store_ssh_host_alias_in_bag
           "host1" "h1.example.com" 1000 bag w _ _ _ eq_refl eq_refl).
  - left. reflexivity.
  - intros (v & [] & _).
Defined.

(** X20: an upsert without an alias keeps what the entry has.  After
    [sysdb_store_ssh_host] without an alias has returned [EOK], every
    attribute of the host's entry that is neither in the caller's bag
    nor one of the three the function adds, the aliases among them when
    the bag has none, has the values it had before, and the entries
    under the other keys are as they were. *)
Theorem sysdb_store_ssh_host_without_alias_keeps
    name now attrs w attrs' w' l :
  sysdb_store_ssh_host name None now attrs w = Done (EOK, attrs') w' l ->
  (forall attr,
     find_element attrs attr = None ->
     attr <> SYSDB_OBJECTCLASS -> attr <> SYSDB_NAME ->
     attr <> SYSDB_LAST_UPDATE ->
     entry_values (db w') SSH_HOSTS_SUBDIR name attr =
     entry_values (db w) SSH_HOSTS_SUBDIR name attr) /\
  (forall subdir key,
     subdir <> SSH_HOSTS_SUBDIR \/ key <> name ->
     find_entry (db w') subdir key = find_entry (db w) subdir key).
Proof.
  intros H.
  assert (Hrun : attrs' = attrs_put_all attrs
                            [(SYSDB_OBJECTCLASS, SYSDB_SSH_HOST_OC);
                             (SYSDB_NAME, name);
                             (SYSDB_LAST_UPDATE, time_val now)] /\
                 db w' = db_merge (db w) SSH_HOSTS_SUBDIR name attrs').
  { destruct w as [h d t f em].
    explore H; finish H; try congruence. split; reflexivity. }
  destruct Hrun as [Hbag Hdb]. split.
  - intros attr Hnone H1 H2 H3.
    rewrite Hdb, entry_values_db_merge, Hbag. simpl.
    rewrite !find_element_attrs_put_other by auto.
    now rewrite Hnone.
  - intros subdir key Hne. rewrite Hdb.
    now apply find_entry_db_merge_other.
Qed.

Lemma sysdb_store_ssh_host_without_alias_keeps_witness :
  let w := sysdb_init [host1] in
  exists attrs' w' l,
    sysdb_store_ssh_host "host1" None 1010 [] w = Done (EOK, attrs') w' l /\
    entry_values (db w') SSH_HOSTS_SUBDIR "host1" SYSDB_NAME_ALIAS =
    ["h1.example.com"].
Proof.
  intros w. eexists _, _, _. split; [vm_compute; reflexivity|].
  destruct (sysdb_store_ssh_host_without_alias_keeps
              "host1" 1010 [] w _ _ _ eq_refl) as (Hkeep & _).
  rewrite Hkeep; [reflexivity | reflexivity | | |]; discriminate.
Defined.
